(** * Evaluation utilities of the multimodal embedding model ([src/utils.py])

    A shallow embedding of the evaluation helpers: the training monitor
    ([LossTrackingCallback]), the retrieval curve ([get_ROC_data], [get_AUC]),
    the baseline predictors ([get_linear_predictions], [get_knn_predictions]),
    the metric engine ([calculate_metrics]), the k-fold aggregator
    ([mergekfold_results]), the class-conditional metrics
    ([get_class_dependent_predictions]) and [filter_classes].

    Number model.  Python floats are idealised as exact numbers: rationals
    ([Q], executable) where the code only adds, multiplies and divides, and
    reals ([R]) extended with the non-finite results of a division by zero
    ([xreal]) where the code takes a square root.  Rounding and overflow are
    not modelled.  Python exceptions are values of [exn] carried by [result]. *)

From Stdlib Require Import List String Ascii ZArith QArith Qround Reals Lra Lia Bool Arith Sorted.
From stdpp Require Import base gmap strings.
Import ListNotations.

Open Scope string_scope.

(** ** Exceptions and results *)

Inductive exn : Type :=
| ValueError (msg : string)
| TypeError
| KeyError (key : string)
| IndexError
| RuntimeError
| ZeroDivisionError
| AttributeError.

Inductive result (A : Type) : Type :=
| Ok (a : A)
| Raise (e : exn).

Arguments Ok {A} a.
Arguments Raise {A} e.

Definition bind {A B : Type} (r : result A) (k : A -> result B) : result B :=
  match r with
  | Ok a => k a
  | Raise e => Raise e
  end.

Notation "'do' x <- r ; k" := (bind r (fun x => k))
  (at level 10, x name, r at level 100, k at level 200).

Notation "'do' ' p <- r ; k" := (bind r (fun x => match x with p => k end))
  (at level 10, p pattern, r at level 100, k at level 200).

(** [for x in l: ...] with a body that may raise: the first exception stops
    the loop. *)
Fixpoint mapM {A B : Type} (f : A -> result B) (l : list A) : result (list B) :=
  match l with
  | [] => Ok []
  | x :: l' => do y <- f x; do ys <- mapM f l'; Ok (y :: ys)
  end.

(** ** Strings: [str.lower] on ASCII text *)

Definition lower_ascii (c : ascii) : ascii :=
  let n := nat_of_ascii c in
  if (65 <=? n)%nat && (n <=? 90)%nat then ascii_of_nat (n + 32) else c.

Fixpoint lower (s : string) : string :=
  match s with
  | EmptyString => EmptyString
  | String c s' => String (lower_ascii c) (lower s')
  end.

(** ** Training Monitor: [LossTrackingCallback] *)

Module Monitor.

(** [trainer.callback_metrics]: a dict from metric names to scalar tensors. *)
Abbreviation metric_feed := (gmap string Q).

(** The [outputs] argument of [on_train_batch_end]: a dict holding the loss
    under ["loss"], or the loss tensor itself. *)
Inductive outputs : Type :=
| OutDict (d : gmap string Q)
| OutTensor (loss : Q).

Record state : Type := mkState {
  train_loss_history : list Q;
  val_loss_history : list Q;
  epoch_train_loss : list Q;
  auc_val_history : list Q;
  R2_val_history : list (option Q);
  R2_train_history : list (option Q)
}.

(** [__init__] *)
Definition init : state := mkState [] [] [] [] [] [].

(** Python's [sum] of a list of floats. *)
Definition sum (l : list Q) : Q := fold_left Qplus l 0%Q.

Definition len (l : list Q) : Q := inject_Z (Z.of_nat (length l)).

(** Truth value of [None] or of a one-element tensor. *)
Definition truthy (o : option Q) : bool :=
  match o with
  | Some v => negb (Qeq_bool v 0)
  | None => false
  end.

Definition on_train_batch_end (st : state) (out : outputs) : state * option exn :=
  let loss :=
    match out with
    | OutDict d =>
        match d !! "loss" with
        | Some l => Ok l
        | None => Raise (KeyError "loss")
        end
    | OutTensor l => Ok l
    end in
  match loss with
  | Ok l =>
      (mkState (train_loss_history st) (val_loss_history st)
         (epoch_train_loss st ++ [l]) (auc_val_history st)
         (R2_val_history st) (R2_train_history st), None)
  | Raise e => (st, Some e)
  end.

Definition on_train_epoch_end (st : state) (callback_metrics : metric_feed)
  : state * option exn :=
  match epoch_train_loss st with
  | [] => (st, Some ZeroDivisionError)
  | _ :: _ =>
      let epoch_loss := (sum (epoch_train_loss st) / len (epoch_train_loss st))%Q in
      (mkState (train_loss_history st ++ [epoch_loss]) (val_loss_history st)
         [] (auc_val_history st)
         (R2_val_history st)
         (R2_train_history st ++ [callback_metrics !! "R2_train"]), None)
  end.

Definition on_validation_epoch_end (st : state) (callback_metrics : metric_feed)
  : state * option exn :=
  match callback_metrics !! "val_loss" with
  | Some val_loss =>
      (mkState (train_loss_history st) (val_loss_history st ++ [val_loss])
         (epoch_train_loss st) (auc_val_history st)
         (R2_val_history st) (R2_train_history st), None)
  | None => (st, None)
  end.

(** [.detach().item()] on the result of [callback_metrics.get]. *)
Definition item (o : option Q) : result Q :=
  match o with
  | Some v => Ok v
  | None => Raise AttributeError
  end.

Definition on_validation_end (st : state) (callback_metrics : metric_feed)
  : state * option exn :=
  let auc_val := callback_metrics !! "AUC_val" in
  let auc_val1 := callback_metrics !! "AUC_val1" in
  let st1 :=
    mkState (train_loss_history st) (val_loss_history st)
      (epoch_train_loss st) (auc_val_history st)
      (R2_val_history st ++ [callback_metrics !! "R2_val"])
      (R2_train_history st) in
  if truthy auc_val || truthy auc_val1 then
    let value :=
      match auc_val with
      | None =>
          do vs <- mapM (fun name => item (callback_metrics !! name))
                     ["AUC_val1"; "AUC_val2"; "AUC_val3"];
          Ok (sum vs / 3)%Q
      | Some v => Ok v
      end in
    match value with
    | Ok v =>
        (mkState (train_loss_history st1) (val_loss_history st1)
           (epoch_train_loss st1) (auc_val_history st1 ++ [v])
           (R2_val_history st1) (R2_train_history st1), None)
    | Raise e => (st1, Some e)
    end
  else (st1, None).

(** The four lifecycle points at which the trainer calls the monitor. *)
Inductive event : Type :=
| TrainBatchEnd (out : outputs)
| TrainEpochEnd (callback_metrics : metric_feed)
| ValidationEpochEnd (callback_metrics : metric_feed)
| ValidationEnd (callback_metrics : metric_feed).

Definition step (st : state) (ev : event) : state * option exn :=
  match ev with
  | TrainBatchEnd out => on_train_batch_end st out
  | TrainEpochEnd m => on_train_epoch_end st m
  | ValidationEpochEnd m => on_validation_epoch_end st m
  | ValidationEnd m => on_validation_end st m
  end.

(** A training run: the callbacks in order; an exception is not caught and
    ends the run. *)
Fixpoint run (st : state) (evs : list event) : state * option exn :=
  match evs with
  | [] => (st, None)
  | ev :: evs' =>
      match step st ev with
      | (st', None) => run st' evs'
      | (st', Some e) => (st', Some e)
      end
  end.

End Monitor.

(** ** Retrieval Evaluator: [get_ROC_data] and [get_AUC] *)

Module Retrieval.

(** [np.linspace(start, stop, num)], in exact arithmetic. *)
Definition linspace (start stop : Q) (num : nat) : list Q :=
  map (fun k => start + inject_Z (Z.of_nat k) * ((stop - start) / inject_Z (Z.of_nat (num - 1))))%Q
      (seq 0 num).

(** [int(x)] for a float [x >= 0]. *)
Definition int (x : Q) : nat := Z.to_nat (Qfloor x).

(** The second component of the value returned by [get_ROC_data]: an array
    with one entry per threshold, or the scalar [nan] that
    [np.sum([], axis=0) / 0] gives when there is no query. *)
Inductive fraction : Type :=
| FracArray (values : list Q)
| FracNaN.

(** [np.sum(imgs, axis=0)] for a list of rows of booleans of width [w]. *)
Definition np_sum_axis0 (w : nat) (imgs : list (list bool)) : list nat :=
  map (fun j => length (List.filter (fun row => nth j row false) imgs)) (seq 0 w).

(** [np.trapz(y, x)] *)
Fixpoint trapz (y x : list Q) : Q :=
  match y, x with
  | y0 :: ((y1 :: _) as y'), x0 :: ((x1 :: _) as x') =>
      ((x1 - x0) * (y1 + y0) / 2 + trapz y' x')%Q
  | _, _ => 0%Q
  end.

Section Curve.

(** Embedding vectors and similarity scores are kept abstract: [cos] is the
    cosine similarity of one row of [embs1] with the query vector, and
    [gtb] the order on scores along which [torch.argsort] ranks. *)
Context {emb score : Type}.
Variable cos : emb -> emb -> score.
Variable gtb : score -> score -> bool.

Definition cosine_similarity (a : list emb) (b : emb) : list score :=
  map (fun row => cos row b) a.

(** [torch.argsort(v, descending=True)]: the indices of [v], ranked from
    the highest score to the lowest. *)
Fixpoint insert_desc (x : nat * score) (l : list (nat * score)) : list (nat * score) :=
  match l with
  | [] => [x]
  | y :: l' => if gtb (snd y) (snd x) then y :: insert_desc x l' else x :: l
  end.

Definition argsort (v : list score) : list nat :=
  map fst (fold_right insert_desc [] (combine (seq 0 (length v)) v)).

(** [idx in idx_sorted[: int(threshold * len(idx_sorted))]] *)
Definition in_top (idx : nat) (idx_sorted : list nat) (threshold : Q) : bool :=
  existsb (Nat.eqb idx)
    (firstn (int (threshold * inject_Z (Z.of_nat (length idx_sorted)))) idx_sorted).

Definition thresholds : list Q := linspace 0 1 100.

(** The list [num_right] of one query: for each threshold, whether the
    query's own index is among the top-ranked candidates. *)
Definition num_right (idx : nat) (idx_sorted : list nat) : list bool :=
  map (in_top idx idx_sorted) thresholds.

(** The list [imgs] once the loop over the queries has finished. *)
Definition imgs (embs1 embs2 : list emb) : list (list bool) :=
  map (fun '(idx, emb_src) =>
         let cos_sim := cosine_similarity embs1 emb_src in
         let idx_sorted := argsort cos_sim in
         num_right idx idx_sorted)
      (combine (seq 0 (length embs2)) embs2).

Definition get_ROC_data (embs1 embs2 : list emb) : result (list Q * fraction) :=
  match embs2 with
  | [] => Ok (thresholds, FracNaN)
  | _ :: _ =>
      (* one row in [embs1]: [squeeze] leaves a 0-d tensor, which has no [len] *)
      if (length embs1 =? 1)%nat then Raise TypeError
      else
        let fraction_correct :=
          map (fun c => inject_Z (Z.of_nat c) / inject_Z (Z.of_nat (length embs2)))%Q
              (np_sum_axis0 (length thresholds) (imgs embs1 embs2)) in
        Ok (thresholds, FracArray fraction_correct)
  end.

Definition get_AUC (embs1 embs2 : list emb) : result (option Q) :=
  do '(ths, fraction_correct) <- get_ROC_data embs1 embs2;
  match fraction_correct with
  | FracArray fr => Ok (Some (trapz fr ths))
  | FracNaN => Ok None
  end.

End Curve.

(** One-dimensional embeddings with non-zero integer entries: the cosine
    similarity of [[x]] and [[y]] is the product of their signs. *)
Definition cos1 (x y : Z) : Z := (Z.sgn x * Z.sgn y)%Z.

End Retrieval.

(** ** Baseline Predictor: [get_linear_predictions] and [get_knn_predictions] *)

Module Baseline.

Section Predictors.

(** A feature matrix is a list of rows, one per example; the targets are
    one value per example.  The scikit-learn estimators are external: an
    estimator fits a model and predicts one value per row it is given. *)
Context {row target : Type}.

Record estimator : Type := mkEstimator {
  model : Type;
  fit : list row -> list target -> model;
  predict : model -> list row -> list target;
  predict_length : forall m X, length (predict m X) = length X
}.

Variables LinearRegression LinearSVC : estimator.
Variables KNeighborsRegressor KNeighborsClassifier : nat -> estimator.

(** The tail shared by both predictors: predict on the validation features
    when both validation arguments are given, else on the training ones. *)
Definition predict_with (E : estimator) (X : list row) (Y : list target)
    (X_val : option (list row)) (Y_val : option (list target)) : list target :=
  let m := fit E X Y in
  match X_val, Y_val with
  | Some xv, Some _ => predict E m xv
  | _, _ => predict E m X
  end.

Definition get_linear_predictions (X : list row) (Y : list target)
    (X_val : option (list row)) (Y_val : option (list target)) (task : string)
  : result (list target) :=
  if String.eqb (lower task) "regression" then
    Ok (predict_with LinearRegression X Y X_val Y_val)
  else if String.eqb (lower task) "classification" then
    Ok (predict_with LinearSVC X Y X_val Y_val)
  else Raise (ValueError "Invalid task").

Definition get_knn_predictions (X : list row) (Y : list target)
    (X_val : option (list row)) (Y_val : option (list target)) (k : nat) (task : string)
  : result (list target) :=
  if String.eqb (lower task) "regression" then
    Ok (predict_with (KNeighborsRegressor k) X Y X_val Y_val)
  else if String.eqb (lower task) "classification" then
    Ok (predict_with (KNeighborsClassifier k) X Y X_val Y_val)
  else Raise (ValueError "Invalid task").

End Predictors.

(** A concrete estimator for examples: it remembers the first training
    target and predicts it for every row. *)
Definition constant_estimator : @estimator Z Z :=
  @mkEstimator Z Z Z (fun _ Y => hd 0%Z Y) (fun m X => map (fun _ => m) X)
    (fun m X => length_map (fun _ => m) X).

End Baseline.

(** ** Metric Engine: [calculate_metrics] and [get_class_dependent_predictions] *)

Module Metrics.

Local Open Scope R_scope.

(** The value of a float expression: a real number, or what a division by
    zero leaves behind. *)
Inductive xreal : Type :=
| Fin (r : R)
| PInf
| NInf
| NaN.

(** A one-dimensional float tensor with finite entries. *)
Abbreviation tensor := (list R).

Definition Rltb (a b : R) : bool := if Rlt_dec a b then true else false.

(** [a / b] on finite floats. *)
Definition xdiv (a b : R) : xreal :=
  if Req_dec_T b 0 then
    if Req_dec_T a 0 then NaN else if Rlt_dec 0 a then PInf else NInf
  else Fin (a / b).

(** [x > c]; a comparison with [nan] is false. *)
Definition xgt (x : xreal) (c : R) : bool :=
  match x with
  | Fin r => Rltb c r
  | PInf => true
  | NInf | NaN => false
  end.

(** [x >= c], as a proposition. *)
Definition xge (x : xreal) (c : R) : Prop :=
  match x with
  | Fin r => c <= r
  | PInf => True
  | NInf | NaN => False
  end.

(** [x <= c], as a proposition. *)
Definition xle (x : xreal) (c : R) : Prop :=
  match x with
  | Fin r => r <= c
  | NInf => True
  | PInf | NaN => False
  end.

Definition xsqrt (x : xreal) : xreal :=
  match x with
  | Fin r => if Rlt_dec r 0 then NaN else Fin (sqrt r)
  | PInf => PInf
  | NInf | NaN => NaN
  end.

(** [1 - x] *)
Definition one_minus (x : xreal) : xreal :=
  match x with
  | Fin r => Fin (1 - r)
  | PInf => NInf
  | NInf => PInf
  | NaN => NaN
  end.

(** Element-wise binary operation on 1-d tensors, with torch's broadcasting
    of a one-element operand. *)
Definition broadcast2 {A B C : Type} (f : A -> B -> C) (a : list A) (b : list B)
  : result (list C) :=
  if (length a =? length b)%nat then Ok (map (fun '(x, y) => f x y) (combine a b))
  else
    match a, b with
    | [x], _ => Ok (map (f x) b)
    | _, [y] => Ok (map (fun x => f x y) a)
    | _, _ => Raise RuntimeError
    end.

(** [torch.sum] *)
Definition sum (t : tensor) : R := fold_right Rplus 0 t.

(** [torch.mean]: [nan] on an empty tensor. *)
Definition mean (t : tensor) : xreal := xdiv (sum t) (INR (length t)).

(** [t ** 2] *)
Definition square (t : tensor) : tensor := map (fun v => v * v) t.

(** [y - torch.mean(y)]; an empty [y] stays empty whatever the mean is. *)
Definition center (y : tensor) : tensor :=
  map (fun v => v - sum y / INR (length y)) y.

(** [b.float()] *)
Definition float (b : bool) : R := if b then 1 else 0.

(** [x[mask]] with a boolean mask. *)
Definition mask_select {A : Type} (mask : list bool) (x : list A) : result (list A) :=
  if (length mask =? length x)%nat
  then Ok (map snd (List.filter fst (combine mask x)))
  else Raise IndexError.

Inductive average : Type := micro | macro.

Record regression_scores : Type := mkRegression {
  L1 : xreal;
  L2 : xreal;
  R2 : xreal;
  OLF : xreal
}.

Record classification_scores : Type := mkClassification {
  mic_f1 : R; mic_p : R; mic_r : R; mic_acc : R;
  mac_f1 : R; mac_p : R; mac_r : R; mac_acc : R
}.

Inductive scores : Type :=
| Regression (s : regression_scores)
| Classification (s : classification_scores).

(** The [metrics] dict. *)
Record metrics : Type := mkMetrics {
  m_Model : string;
  m_Combination : string;
  m_scores : scores;
  m_id : Z
}.

(** The [results] dict: a prediction record. *)
Record prediction_record (T L LC : Type) : Type := mkRecord {
  Model : string;
  Combination : string;
  id : Z;
  y_pred : list T;
  y_true : list T;
  y_true_label : list L;
  lc_data : option LC
}.

Arguments mkRecord {T L LC}.
Arguments Model {T L LC}.
Arguments Combination {T L LC}.
Arguments id {T L LC}.
Arguments y_pred {T L LC}.
Arguments y_true {T L LC}.
Arguments y_true_label {T L LC}.
Arguments lc_data {T L LC}.

(** A metrics dict with the extra ["class"] key. *)
Record class_metrics : Type := mkClassMetrics {
  cm_metrics : metrics;
  class : string
}.

(** The invariant of a prediction record: one predicted value and one true
    value per true class label. *)
Definition well_formed {T L LC : Type} (r : prediction_record T L LC) : Prop :=
  length (y_pred r) = length (y_true_label r) /\
  length (y_true r) = length (y_true_label r).

(** What identifies an emitted record: model, combination, fold and class. *)
Definition tag (cm : class_metrics) : string * string * Z * string :=
  (m_Model (cm_metrics cm), m_Combination (cm_metrics cm), m_id (cm_metrics cm),
   class cm).

(** The entries of the class-name map whose class has at least one member
    among the labels, in the order of the map. *)
Definition populated_classes (labels : list Z)
    (class_names : list (Z * (string * string))) : list (Z * (string * string)) :=
  List.filter (fun entry => existsb (Z.eqb (fst entry)) labels) class_names.

(** The regression scores of [calculate_metrics]. *)
Definition regression (y_true y_pred : tensor) : result regression_scores :=
  do delta_z <- broadcast2 Rminus y_true y_pred;
  let l1 := mean (map Rabs delta_z) in
  let l2 := xsqrt (mean (square delta_z)) in
  let r2 := one_minus (xdiv (sum (square delta_z)) (sum (square (center y_true)))) in
  do outliers <- broadcast2 (fun d y => xgt (xdiv d (1 + y)) 0.15)
                   (map Rabs delta_z) y_true;
  let olf := mean (map float outliers) in
  Ok (mkRegression l1 l2 r2 olf).

Section Engine.

(** The light-curve payload is carried along untouched. *)
Context {LC : Type}.

(** The scikit-learn scores of the classification branch are external. *)
Variables f1_score precision_score recall_score : list Z -> tensor -> average -> R.
Variables accuracy_score balanced_accuracy_score : list Z -> tensor -> R.

Definition calculate_metrics (y_true : tensor) (y_true_label : list Z)
    (y_pred : tensor) (lc_data : option LC) (label combination : string)
    (id : Z) (task : string)
  : result (metrics * prediction_record R Z LC) :=
  do metrics <-
    (if String.eqb task "regression" then
       do s <- regression y_true y_pred;
       Ok (mkMetrics label combination (Regression s) id)
     else if String.eqb task "classification" then
       Ok (mkMetrics label combination
             (Classification
                (mkClassification
                   (f1_score y_true_label y_pred micro)
                   (precision_score y_true_label y_pred micro)
                   (recall_score y_true_label y_pred micro)
                   (accuracy_score y_true_label y_pred)
                   (f1_score y_true_label y_pred macro)
                   (precision_score y_true_label y_pred macro)
                   (recall_score y_true_label y_pred macro)
                   (balanced_accuracy_score y_true_label y_pred)))
             id)
     else
       Raise (ValueError
         "Could not understand the task! Please set task to 'redshift' or 'classification'."));
  Ok (metrics, mkRecord label combination id y_pred y_true y_true_label lc_data).

(** The body of the inner loop of [get_class_dependent_predictions]: the
    records appended to [results] for one input row and one class. *)
Definition class_step (row : prediction_record R Z LC)
    (entry : Z * (string * string)) : result (list class_metrics) :=
  let '(label, name_color_tuple) := entry in
  let class_name := fst name_color_tuple in
  let mask := map (Z.eqb label) (y_true_label row) in
  do y_pred_class <- mask_select mask (y_pred row);
  do y_true_class <- mask_select mask (y_true row);
  if (0 <? length y_pred_class)%nat && (0 <? length y_true_class)%nat then
    do y_label_class <- mask_select mask (y_true_label row);
    do '(metrics, _) <- calculate_metrics y_true_class y_label_class y_pred_class
                          None (Model row) (Combination row) (id row) "regression";
    Ok [mkClassMetrics metrics class_name]
  else Ok [].

Definition get_class_dependent_predictions
    (inputs : list (prediction_record R Z LC))
    (class_names : list (Z * (string * string)))
  : result (list class_metrics) :=
  do per_row <- mapM (fun row =>
                  do per_class <- mapM (class_step row) class_names;
                  Ok (concat per_class))
                inputs;
  Ok (concat per_row).

End Engine.

End Metrics.

(** ** Result Aggregator: [mergekfold_results] *)

Module Aggregator.

Import Metrics.

(** The grouping key [(Model, Combination, id)]. *)
Abbreviation key := (string * string * Z)%type.

Definition key_eqb (k1 k2 : key) : bool :=
  let '(m1, c1, i1) := k1 in
  let '(m2, c2, i2) := k2 in
  String.eqb m1 m2 && String.eqb c1 c2 && Z.eqb i1 i2.

(** Tuple order: lexicographic, strings by code point. *)
Definition key_leb (k1 k2 : key) : bool :=
  let '(m1, c1, i1) := k1 in
  let '(m2, c2, i2) := k2 in
  match String.compare m1 m2 with
  | Lt => true
  | Gt => false
  | Eq =>
      match String.compare c1 c2 with
      | Lt => true
      | Gt => false
      | Eq => Z.leb i1 i2
      end
  end.

Fixpoint insert_key (k : key) (l : list key) : list key :=
  match l with
  | [] => [k]
  | k' :: l' => if key_leb k k' then k :: l else k' :: insert_key k l'
  end.

Definition sort_keys (l : list key) : list key := fold_right insert_key [] l.

(** The distinct keys, each kept at its first occurrence. *)
Fixpoint unique (l : list key) : list key :=
  match l with
  | [] => []
  | k :: l' => k :: List.filter (fun k' => negb (key_eqb k' k)) (unique l')
  end.

(** [Series.dropna()] on a column of objects. *)
Fixpoint dropna {A : Type} (col : list (option A)) : list A :=
  match col with
  | [] => []
  | Some a :: col' => a :: dropna col'
  | None :: col' => dropna col'
  end.

(** [np.concatenate] refuses an empty sequence of arrays. *)
Definition np_concatenate {A : Type} (arrays : list (list A)) : result (list A) :=
  match arrays with
  | [] => Raise (ValueError "need at least one array to concatenate")
  | _ :: _ => Ok (concat arrays)
  end.

(** [d[key]] on a dict kept as an association list. *)
Fixpoint dict_get {A : Type} (k : string) (d : list (string * A)) : result A :=
  match d with
  | [] => Raise (KeyError k)
  | (k', v) :: d' => if String.eqb k k' then Ok v else dict_get k d'
  end.

(** How the payload of a merged row relates to the payloads present in its
    group: none when the group has none; otherwise the names of the first
    payload, each with the arrays found under that name in every payload,
    joined in order. *)
Definition payload_merged {V : Type} (payloads : list (list (string * list V)))
    (merged : option (list (string * list V))) : Prop :=
  match merged with
  | None => payloads = []
  | Some named =>
      exists first rest,
        payloads = first :: rest /\
        map fst named = map fst first /\
        Forall (fun '(k, joined) =>
                  exists arrays,
                    Forall2 (fun d a => dict_get k d = Ok a) payloads arrays /\
                    joined = concat arrays)
               named
  end.

Section Merge.

(** Element types of the prediction arrays, of the label array, and of the
    named arrays of the light-curve payload. *)
Context {T L V : Type}.

Abbreviation lc_dict := (list (string * list V)).
Abbreviation record := (prediction_record T L lc_dict).

Definition key_of (r : record) : key := (Model r, Combination r, id r).

(** [df.groupby(["Model", "Combination", "id"])]: the groups in key order,
    each with its rows in the order of the input. *)
Definition groupby (results : list record) : list (key * list record) :=
  map (fun k => (k, List.filter (fun r => key_eqb (key_of r) k) results))
      (sort_keys (unique (map key_of results))).

(** The concatenated light-curve payload of one group. *)
Definition concat_lc_data (group : list record) : result (option lc_dict) :=
  match dropna (map lc_data group) with
  | [] => Ok None
  | first :: rest =>
      do merged <- mapM (fun '(k, _) =>
                     do arrays <- mapM (dict_get k) (first :: rest);
                     do joined <- np_concatenate arrays;
                     Ok (k, joined))
                   first;
      Ok (Some merged)
  end.

(** The body of the loop over the groups: one row of the merged table. *)
Definition merge_group (g : key * list record) : result record :=
  let '((model, combination, id_), group) := g in
  do preds <- np_concatenate (dropna (map (fun r => Some (y_pred r)) group));
  do trues <- np_concatenate (dropna (map (fun r => Some (y_true r)) group));
  do labels <- np_concatenate (dropna (map (fun r => Some (y_true_label r)) group));
  do lc_data_concat <- concat_lc_data group;
  Ok (mkRecord model combination id_ preds trues labels lc_data_concat).

Definition mergekfold_results (results : list record) : result (list record) :=
  match results with
  | [] => Raise (KeyError "Model")
  | _ :: _ => mapM merge_group (groupby results)
  end.

End Merge.

End Aggregator.

(** ** [filter_classes] *)

Module FilterClasses.

Import Metrics.

(** [remapped_y[filtered_y == class_val] = i] *)
Definition masked_assign (remapped_y filtered_y : list Z) (class_val : Z) (i : nat)
  : list Z :=
  map (fun '(r, f) => if Z.eqb f class_val then Z.of_nat i else r)
      (combine remapped_y filtered_y).

Section Filter.

(** Rows of the feature matrices and rows of the light-curve arrays. *)
Context {Row V : Type}.

(** [torch.empty_like]: a tensor of the same length, contents arbitrary. *)
Variable empty_like : list Z -> list Z.

Definition filter_classes (X_list : list (list Row)) (y : list Z)
    (lc_data : option (list (string * list V))) (target_classes : list Z)
  : result (list (list Row) * list Z * option (list (string * list V))) :=
  let y_flat := y in
  let mask := map (fun v => existsb (Z.eqb v) target_classes) y_flat in
  do filtered_X_list <- mapM (mask_select mask) X_list;
  do filtered_lc_data <-
    match lc_data with
    | Some d =>
        do d' <- mapM (fun '(k, value) =>
                   do v <- mask_select mask value; Ok (k, v)) d;
        Ok (Some d')
    | None => Ok None
    end;
  do filtered_y <- mask_select mask y_flat;
  let remapped_y :=
    fold_left (fun remapped '(i, class_val) =>
                 masked_assign remapped filtered_y class_val i)
              (combine (seq 0 (length target_classes)) target_classes)
              (empty_like filtered_y) in
  Ok (filtered_X_list, remapped_y, filtered_lc_data).

End Filter.

End FilterClasses.

(** ** File bookkeeping: [filter_files], [find_indices_in_arrays],
    [get_valid_dir], [is_subset], [get_checkpoint_paths] *)

Module Files.

(** [np.isin(elements, test_elements)] on lists of names. *)
Definition np_isin (elements test_elements : list string) : list bool :=
  map (fun e => existsb (String.eqb e) test_elements) elements.

Definition filter_files {A : Type} (filenames_avail filenames_to_filter : list string)
    (data_to_filter : option (list (list A)))
  : result (list bool * list string * option (list (list A))) :=
  let inds_filt := np_isin filenames_to_filter filenames_avail in
  do data_to_filter' <-
    match data_to_filter with
    | Some (d :: ds) =>
        do filtered <- mapM (Metrics.mask_select inds_filt) (d :: ds);
        Ok (Some filtered)
    | Some [] => Ok (Some [])
    | None => Ok None
    end;
  do filenames_to_filter' <- Metrics.mask_select inds_filt filenames_to_filter;
  Ok (inds_filt, filenames_to_filter', data_to_filter').

(** [l.index(item)]; [None] stands for the [ValueError] of a missing item. *)
Fixpoint list_index (item : string) (l : list string) : option nat :=
  match l with
  | [] => None
  | x :: l' => if String.eqb x item then Some 0%nat else option_map S (list_index item l')
  end.

Definition find_indices_in_arrays (st1 st2 : list string) : list nat * list nat :=
  let found :=
    flat_map (fun '(idx, item) =>
                match list_index item st2 with
                | Some index_in_st2 => [(index_in_st2, idx)]
                | None => []
                end)
             (combine (seq 0 (length st1)) st1) in
  (map fst found, map snd found).

Definition is_subset (subset superset : list string) : bool :=
  let subset_set : gset string := list_to_set subset in
  let superset_set : gset string := list_to_set superset in
  bool_decide (subset_set ⊆ superset_set).

(** [s.endswith(suffix)] *)
Fixpoint endswith (s suffix : string) : bool :=
  String.eqb s suffix ||
  match s with
  | EmptyString => false
  | String _ s' => endswith s' suffix
  end.

(** [s.split(sep)] for a one-character separator. *)
Fixpoint split (sep : ascii) (s : string) : list string :=
  match s with
  | EmptyString => [EmptyString]
  | String c s' =>
      if Ascii.eqb c sep then EmptyString :: split sep s'
      else
        match split sep s' with
        | piece :: rest => String c piece :: rest
        | [] => [String c EmptyString]
        end
  end.

(** [os.path.join(a, b)] on POSIX paths. *)
Definition os_path_join (a b : string) : string :=
  if String.prefix "/" b then b
  else if String.eqb a "" || endswith a "/" then a ++ b
  else a ++ "/" ++ b.

Section FileSystem.

(** The state of the file system: which paths are directories, and what
    [os.walk] lists under a root (directory path, sub-directories, files). *)
Variable isdir : string -> bool.
Variable os_walk : string -> list (string * list string * list string).

(** Python's [int] on text; [None] stands for its [ValueError]. *)
Variable int : string -> option Z.

Fixpoint get_valid_dir (data_dirs : list string) : result string :=
  match data_dirs with
  | [] => Raise (ValueError "No valid data directory found")
  | data_dir :: rest => if isdir data_dir then Ok data_dir else get_valid_dir rest
  end.

(** [int(filename.split("=")[1].split("-")[0])]; [None] when the
    [IndexError] or the [ValueError] is caught. *)
Definition epoch_of (filename : string) : option Z :=
  match split "=" filename with
  | _ :: second :: _ =>
      match split "-" second with
      | first :: _ => int first
      | [] => None
      end
  | _ => None
  end.

(** One pass of the loop over the files of a directory; the state is
    [(smallest_epoch, path_of_smallest)], with [None] for [inf] and [None]. *)
Definition scan_file (dirpath : string) (st : option Z * option string)
    (filename : string) : option Z * option string :=
  if endswith filename ".ckpt" then
    match epoch_of filename with
    | None => st
    | Some epoch =>
        let smaller :=
          match fst st with
          | None => true
          | Some smallest_epoch => (epoch <? smallest_epoch)%Z
          end in
        if smaller then (Some epoch, Some (os_path_join dirpath filename)) else st
    end
  else st.

(** The paths appended to [ckpt_paths] for one directory of the walk. *)
Definition scan_dir (entry : string * list string * list string) : list string :=
  let '(dirpath, _, filenames) := entry in
  match snd (fold_left (scan_file dirpath) filenames (None, None)) with
  | Some path_of_smallest =>
      if String.eqb path_of_smallest "" then [] else [path_of_smallest]
  | None => []
  end.

Definition get_checkpoint_paths (root_dir name : string) (id : Z)
  : list string * list string * list Z :=
  let ckpt_paths := flat_map scan_dir (os_walk root_dir) in
  (ckpt_paths, repeat name (length ckpt_paths), repeat id (length ckpt_paths)).

End FileSystem.

End Files.

(** ** Embedding Extractor: [get_embs] *)

Module Embeddings.

(** The canonical order of the modalities. *)
Definition combs_all : list string := ["host_galaxy"; "lightcurve"; "spectral"; "meta"].

(** [name in combinations] *)
Definition contains (combinations : list string) (name : string) : bool :=
  existsb (String.eqb name) combinations.

(** [torch.cat(tensors, dim=0)]: refuses an empty list of tensors. *)
Definition torch_cat {row : Type} (tensors : list (list row)) : result (list row) :=
  match tensors with
  | [] => Raise RuntimeError
  | _ :: _ => Ok (concat tensors)
  end.

(** A loop whose body may raise, threading an accumulator. *)
Fixpoint foldM {A B : Type} (f : A -> B -> result A) (l : list B) (a : A) : result A :=
  match l with
  | [] => Ok a
  | x :: l' => do a' <- f a x; foldM f l' a'
  end.

Section Extractor.

(** A batch of the data loader and a row of an embedding tensor.  The model
    is external: it embeds a batch, per modality, into one row per example
    (the meta embedding is the meta encoder applied to the class embedding
    joined with the repeated redshift). *)
Context {batch row : Type}.
Variable image_embeddings_with_projection : batch -> list row.
Variable lightcurve_embeddings_with_projection : batch -> list row.
Variable spectral_embeddings_with_projection : batch -> list row.
Variable meta_embedding : batch -> list row.

(** The embedding method behind a modality name. *)
Definition encoder_of (name : string) : batch -> list row :=
  if String.eqb name "host_galaxy" then image_embeddings_with_projection
  else if String.eqb name "lightcurve" then lightcurve_embeddings_with_projection
  else if String.eqb name "spectral" then spectral_embeddings_with_projection
  else meta_embedding.

(** The list [x] built for one batch. *)
Definition embed (combinations : list string) (b : batch) : list (list row) :=
  ((if contains combinations "host_galaxy"
    then [image_embeddings_with_projection b] else []) ++
   (if contains combinations "lightcurve"
    then [lightcurve_embeddings_with_projection b] else []) ++
   (if contains combinations "spectral"
    then [spectral_embeddings_with_projection b] else []) ++
   (if contains combinations "meta" then [meta_embedding b] else []))%list.

(** [for i in range(len(x)): embs_list[i].append(x[i])] *)
Fixpoint append_each (embs_list : list (list (list row))) (x : list (list row))
    {struct x} : result (list (list (list row))) :=
  match x, embs_list with
  | [], _ => Ok embs_list
  | xi :: x', slot :: rest =>
      do rest' <- append_each rest x'; Ok ((slot ++ [xi])%list :: rest')
  | _ :: _, [] => Raise IndexError
  end.

Definition get_embs (dataloader : list batch) (combinations : list string)
    (ret_combs : bool) : result (list (list row) * option (list string)) :=
  let embs_list := map (fun _ => []) combinations in
  let combs := List.filter (contains combinations) combs_all in
  do embs_list <- foldM (fun acc b => append_each acc (embed combinations b))
                    dataloader embs_list;
  do embs_list <- mapM torch_cat embs_list;
  Ok (embs_list, if ret_combs then Some combs else None).

End Extractor.

End Embeddings.

(** ** [assert_sorted_lc] *)

Module LightCurves.

(** What a call does: it returns, or an assertion or an index fails. *)
Inductive outcome : Type :=
| Returned
| AssertionFailed
| IndexFailed.

(** Python's [sorted] on numbers. *)
Fixpoint insert_sorted (x : Q) (l : list Q) : list Q :=
  match l with
  | [] => [x]
  | y :: l' => if Qle_bool x y then x :: l else y :: insert_sorted x l'
  end.

Definition sorted (l : list Q) : list Q := fold_right insert_sorted [] l.

(** [(a == b).all()] on sequences of one length. *)
Definition all_equal (a b : list Q) : bool :=
  forallb (fun '(x, y) => Qeq_bool x y) (combine a b).

(** The slice [x[a:b]]. *)
Definition slice {A : Type} (x : list A) (a b : nat) : list A := skipn a (firstn b x).

(** The non-zero times of band [k] of one row. *)
Definition band (nbands : nat) (times : list Q) (k : nat) : list Q :=
  let N := length times in
  let test := slice times ((N / nbands) * k) ((N / nbands) * (k + 1)) in
  List.filter (fun t => negb (Qeq_bool t 0)) test.

(** The value of [check] after the given rows of one batch ([None] when a
    row index is out of range); a batch is given by its [mag_test] and
    [time_test] fields. *)
Fixpoint check_rows (nbands : nat) (time_test : list (list Q))
    (rows : list nat) (check : bool) : option bool :=
  match rows with
  | [] => Some check
  | i :: rows' =>
      match nth_error time_test i with
      | None => None
      | Some times =>
          let check' :=
            fold_left (fun c k => c && all_equal (sorted (band nbands times k))
                                            (band nbands times k))
                      (seq 0 nbands) check in
          check_rows nbands time_test rows' check'
      end
  end.

Fixpoint assert_sorted_lc {M B : Type} (loader : list (list M * list (list Q)))
    (bands : list B) : outcome :=
  match loader with
  | [] => Returned
  | (mag_test, time_test) :: rest =>
      match check_rows (length bands) time_test (seq 0 (length mag_test)) true with
      | None => IndexFailed
      | Some true => assert_sorted_lc rest bands
      | Some false => AssertionFailed
      end
  end.

End LightCurves.

(** * Properties *)

(** ** Task strings *)

Lemma lower_regression : lower "regression" = "regression".
Proof. reflexivity. Qed.

Lemma lower_classification : lower "classification" = "classification".
Proof. reflexivity. Qed.

Section BaselineFacts.

Context {row target : Type}.
Variables LinearRegression LinearSVC : @Baseline.estimator row target.
Variables KNeighborsRegressor KNeighborsClassifier : nat -> @Baseline.estimator row target.

Lemma linear_invalid_task X Y X_val Y_val task :
  lower task <> "regression" -> lower task <> "classification" ->
  Baseline.get_linear_predictions LinearRegression LinearSVC X Y X_val Y_val task
  = Raise (ValueError "Invalid task").
Proof.
  intros Hr Hc. unfold Baseline.get_linear_predictions.
  apply String.eqb_neq in Hr, Hc. now rewrite Hr, Hc.
Qed.

Lemma knn_invalid_task X Y X_val Y_val k task :
  lower task <> "regression" -> lower task <> "classification" ->
  Baseline.get_knn_predictions KNeighborsRegressor KNeighborsClassifier
    X Y X_val Y_val k task
  = Raise (ValueError "Invalid task").
Proof.
  intros Hr Hc. unfold Baseline.get_knn_predictions.
  apply String.eqb_neq in Hr, Hc. now rewrite Hr, Hc.
Qed.

End BaselineFacts.

Section EngineFacts.

Context {LC : Type}.
Variables f1_score precision_score recall_score
  : list Z -> list R -> Metrics.average -> R.
Variables accuracy_score balanced_accuracy_score : list Z -> list R -> R.

Local Abbreviation calculate_metrics :=
  (@Metrics.calculate_metrics LC f1_score precision_score recall_score
     accuracy_score balanced_accuracy_score).

Lemma calculate_metrics_invalid_task y_true y_true_label y_pred lc_data
    label combination id task :
  task <> "regression" -> task <> "classification" ->
  calculate_metrics y_true y_true_label y_pred lc_data label combination id task
  = Raise (ValueError
      "Could not understand the task! Please set task to 'redshift' or 'classification'.").
Proof.
  intros Hr Hc. unfold Metrics.calculate_metrics.
  apply String.eqb_neq in Hr, Hc. now rewrite Hr, Hc.
Qed.

End EngineFacts.

(** C1, as stated, fails: the two baseline predictors lower-case the task
    before they compare it, so ["Regression"], a string outside
    {regression, classification}, is accepted and predictions are returned. *)
Lemma invalid_task_mixed_case_accepted :
  "Regression" <> "regression" /\ "Regression" <> "classification" /\
  Baseline.get_linear_predictions
    Baseline.constant_estimator Baseline.constant_estimator
    [1; 2]%Z [7; 8]%Z None None "Regression" = Ok [7; 7]%Z /\
  Baseline.get_knn_predictions
    (fun _ => Baseline.constant_estimator) (fun _ => Baseline.constant_estimator)
    [1; 2]%Z [7; 8]%Z None None 5 "Regression" = Ok [7; 7]%Z.
Proof. repeat split; discriminate. Qed.

(** C1, amended: [calculate_metrics] raises the invalid-task error for every
    task string other than "regression" and "classification";
    [get_linear_predictions] and [get_knn_predictions] raise it for every
    task string whose lower-cased form is other than these two.  The error
    is the result of the call: no metrics and no predictions are produced. *)
Theorem invalid_task_raises :
  (forall task : string,
      task <> "regression" -> task <> "classification" ->
      forall (LC : Type) f1_score precision_score recall_score
             accuracy_score balanced_accuracy_score
             y_true y_true_label y_pred lc_data label combination id,
        @Metrics.calculate_metrics LC f1_score precision_score recall_score
          accuracy_score balanced_accuracy_score
          y_true y_true_label y_pred lc_data label combination id task
        = Raise (ValueError
            "Could not understand the task! Please set task to 'redshift' or 'classification'."))
  /\
  (forall task : string,
      lower task <> "regression" -> lower task <> "classification" ->
      forall (row target : Type)
             (LinearRegression LinearSVC : @Baseline.estimator row target)
             (KNeighborsRegressor KNeighborsClassifier : nat -> @Baseline.estimator row target)
             X Y X_val Y_val k,
        Baseline.get_linear_predictions LinearRegression LinearSVC X Y X_val Y_val task
        = Raise (ValueError "Invalid task")
        /\
        Baseline.get_knn_predictions KNeighborsRegressor KNeighborsClassifier
          X Y X_val Y_val k task
        = Raise (ValueError "Invalid task")).
Proof.
  split.
  - intros. now apply calculate_metrics_invalid_task.
  - intros. split.
    + now apply linear_invalid_task.
    + now apply knn_invalid_task.
Qed.

Lemma invalid_task_raises_witness :
  @Metrics.calculate_metrics unit (fun _ _ _ => 0%R) (fun _ _ _ => 0%R)
    (fun _ _ _ => 0%R) (fun _ _ => 0%R) (fun _ _ => 0%R)
    [] [] [] None "knn" "spectral" 0%Z "Regression"
  = Raise (ValueError
      "Could not understand the task! Please set task to 'redshift' or 'classification'.")
  /\
  Baseline.get_linear_predictions
    Baseline.constant_estimator Baseline.constant_estimator
    [1; 2]%Z [7; 8]%Z None None "redshift" = Raise (ValueError "Invalid task")
  /\
  Baseline.get_knn_predictions
    (fun _ => Baseline.constant_estimator) (fun _ => Baseline.constant_estimator)
    [1; 2]%Z [7; 8]%Z None None 5 "redshift" = Raise (ValueError "Invalid task").
Proof.
  destruct invalid_task_raises as [Hm Hp]. split.
  - apply (Hm "Regression"); discriminate.
  - apply (Hp "redshift"); discriminate.
Defined.

(** C10: for a valid task, [get_linear_predictions] and [get_knn_predictions]
    predict on the validation features only when both [X_val] and [Y_val] are
    given; with [X_val] given and [Y_val] missing, or the other way round,
    the predictions are those of the fitted model on the training inputs [X],
    one per training example. *)
Theorem predictions_need_both_validation_arguments
    {row target : Type}
    (LinearRegression LinearSVC : @Baseline.estimator row target)
    (KNeighborsRegressor KNeighborsClassifier : nat -> @Baseline.estimator row target)
    (X : list row) (Y : list target) (xv : list row) (yv : list target)
    (k : nat) (task : string) :
  lower task = "regression" \/ lower task = "classification" ->
  (exists E, (E = LinearRegression \/ E = LinearSVC) /\
     let m := Baseline.fit E X Y in
     let linear := Baseline.get_linear_predictions LinearRegression LinearSVC X Y in
     linear (Some xv) (Some yv) task = Ok (Baseline.predict E m xv) /\
     linear (Some xv) None task = Ok (Baseline.predict E m X) /\
     linear None (Some yv) task = Ok (Baseline.predict E m X) /\
     length (Baseline.predict E m xv) = length xv /\
     length (Baseline.predict E m X) = length X)
  /\
  (exists E, (E = KNeighborsRegressor k \/ E = KNeighborsClassifier k) /\
     let m := Baseline.fit E X Y in
     let knn v w := Baseline.get_knn_predictions
                      KNeighborsRegressor KNeighborsClassifier X Y v w k in
     knn (Some xv) (Some yv) task = Ok (Baseline.predict E m xv) /\
     knn (Some xv) None task = Ok (Baseline.predict E m X) /\
     knn None (Some yv) task = Ok (Baseline.predict E m X) /\
     length (Baseline.predict E m xv) = length xv /\
     length (Baseline.predict E m X) = length X).
Proof.
  intros Htask. split.
  - destruct Htask as [H | H];
      [exists LinearRegression | exists LinearSVC];
      (split; [auto |]); unfold Baseline.get_linear_predictions; rewrite H; simpl;
      repeat split; apply Baseline.predict_length.
  - destruct Htask as [H | H];
      [exists (KNeighborsRegressor k) | exists (KNeighborsClassifier k)];
      (split; [auto |]); unfold Baseline.get_knn_predictions; rewrite H; simpl;
      repeat split; apply Baseline.predict_length.
Qed.

Lemma predictions_need_both_validation_arguments_witness :
  Baseline.get_linear_predictions
    Baseline.constant_estimator Baseline.constant_estimator
    [1; 2; 3]%Z [7; 8; 9]%Z (Some [4; 5]%Z) None "regression"
  = Ok [7; 7; 7]%Z.
Proof.
  destruct (predictions_need_both_validation_arguments
              Baseline.constant_estimator Baseline.constant_estimator
              (fun _ => Baseline.constant_estimator)
              (fun _ => Baseline.constant_estimator)
              [1; 2; 3]%Z [7; 8; 9]%Z [4; 5]%Z [0; 0]%Z 5 "regression"
              (or_introl eq_refl)) as [[E [[HE | HE] [_ [H _]]]] _];
    subst E; exact H.
Defined.

(** ** Training Monitor *)

(** C2, as stated, fails: after one batch, a train-epoch end whose feed has
    no [R2_train] still appends an entry, the placeholder [None], to the
    training-R2 history. *)
Lemma absent_R2_train_leaves_placeholder :
  let feed : gmap string Q := ∅ in
  let st := fst (Monitor.run Monitor.init
                   [Monitor.TrainBatchEnd (Monitor.OutTensor 1);
                    Monitor.TrainEpochEnd feed]) in
  feed !! "R2_train" = None /\
  Monitor.R2_train_history Monitor.init = [] /\
  Monitor.R2_train_history st = [None].
Proof. repeat split. Qed.

(** C2, amended: at any point of any sequence of lifecycle callbacks,
    a validation-epoch end whose feed has no [val_loss] leaves the monitor
    unchanged; a validation-round end whose feed has no [AUC_val] and lacks
    one of the sub-scores [AUC_val1..3] appends nothing to the AUC history;
    a train-epoch end whose feed has no [R2_train] raises
    [ZeroDivisionError] and leaves the monitor unchanged when no batch loss
    is pending, and otherwise raises nothing and appends exactly one entry,
    [None], to the training-R2 history; a validation-round end whose feed
    has no [R2_val] appends exactly one entry, [None], to the validation-R2
    history.  The entry stored for an absent R2 metric is never a number. *)
Theorem absent_metric_recording (st0 : Monitor.state) (evs : list Monitor.event)
    (feed : gmap string Q) :
  let st := fst (Monitor.run st0 evs) in
  (feed !! "val_loss" = None ->
     Monitor.on_validation_epoch_end st feed = (st, None))
  /\
  (feed !! "AUC_val" = None ->
   feed !! "AUC_val1" = None \/ feed !! "AUC_val2" = None \/ feed !! "AUC_val3" = None ->
     Monitor.auc_val_history (fst (Monitor.on_validation_end st feed))
     = Monitor.auc_val_history st)
  /\
  (feed !! "R2_train" = None ->
     match Monitor.epoch_train_loss st with
     | [] => Monitor.on_train_epoch_end st feed = (st, Some ZeroDivisionError)
     | _ :: _ =>
         snd (Monitor.on_train_epoch_end st feed) = None /\
         Monitor.R2_train_history (fst (Monitor.on_train_epoch_end st feed))
         = (Monitor.R2_train_history st ++ [None])%list
     end)
  /\
  (feed !! "R2_val" = None ->
     Monitor.R2_val_history (fst (Monitor.on_validation_end st feed))
     = (Monitor.R2_val_history st ++ [None])%list).
Proof.
  intros st. repeat split.
  - intros H. unfold Monitor.on_validation_epoch_end. now rewrite H.
  - intros Hauc Hsub. unfold Monitor.on_validation_end. rewrite Hauc. simpl.
    destruct (Monitor.truthy (feed !! "AUC_val1")) eqn:Ht; [| reflexivity].
    destruct (feed !! "AUC_val1") as [v1 |] eqn:H1; [| discriminate Ht].
    destruct (feed !! "AUC_val2") as [v2 |] eqn:H2; [| reflexivity].
    destruct (feed !! "AUC_val3") as [v3 |] eqn:H3; [| reflexivity].
    destruct Hsub as [H | [H | H]]; discriminate H.
  - intros H. unfold Monitor.on_train_epoch_end.
    destruct (Monitor.epoch_train_loss st); [reflexivity |].
    simpl. now rewrite H.
  - intros H. unfold Monitor.on_validation_end. rewrite H.
    destruct (Monitor.truthy (feed !! "AUC_val") || Monitor.truthy (feed !! "AUC_val1"));
      [| reflexivity].
    destruct (feed !! "AUC_val"); [reflexivity |].
    destruct (mapM _ _); reflexivity.
Qed.

Lemma absent_metric_recording_witness :
  let st := fst (Monitor.run Monitor.init
                   [Monitor.TrainBatchEnd (Monitor.OutTensor 1)]) in
  let feed : gmap string Q := <["AUC_val1" := 1%Q]> ∅ in
  Monitor.on_validation_epoch_end st feed = (st, None) /\
  Monitor.auc_val_history (fst (Monitor.on_validation_end st feed)) = [] /\
  Monitor.R2_train_history (fst (Monitor.on_train_epoch_end st feed)) = [None] /\
  Monitor.R2_val_history (fst (Monitor.on_validation_end st feed)) = [None].
Proof.
  intros st feed.
  destruct (absent_metric_recording Monitor.init
              [Monitor.TrainBatchEnd (Monitor.OutTensor 1)] feed)
    as [Hv [Ha [Ht Hr]]].
  split; [| split; [| split]].
  - apply Hv. reflexivity.
  - apply Ha; [reflexivity | right; left; reflexivity].
  - exact (proj2 (Ht eq_refl)).
  - apply Hr. reflexivity.
Defined.

(** ** Retrieval Evaluator *)

Lemma map_fst_combine {A B : Type} (l1 : list A) (l2 : list B) :
  length l1 = length l2 -> map fst (combine l1 l2) = l1.
Proof.
  revert l2. induction l1 as [| a l1 IH]; intros [| b l2] H; simpl in *;
    try discriminate; [reflexivity |].
  f_equal. apply IH. lia.
Qed.

Lemma existsb_firstn_mono {A : Type} (f : A -> bool) (l : list A) (a b : nat) :
  (a <= b)%nat -> existsb f (firstn a l) = true -> existsb f (firstn b l) = true.
Proof.
  revert a b. induction l as [| x l IH]; intros a b Hab H.
  - now rewrite firstn_nil in *.
  - destruct a as [| a]; [discriminate H |].
    destruct b as [| b]; [lia |].
    simpl in *. apply orb_true_iff in H. apply orb_true_iff.
    destruct H as [H | H]; [now left | right].
    apply (IH a b); [lia | exact H].
Qed.

Lemma int_scale_mono (t1 t2 : Q) (n : nat) :
  (t1 <= t2)%Q ->
  (Retrieval.int (t1 * inject_Z (Z.of_nat n)) <= Retrieval.int (t2 * inject_Z (Z.of_nat n)))%nat.
Proof.
  intros H. unfold Retrieval.int.
  assert (Hm : (t1 * inject_Z (Z.of_nat n) <= t2 * inject_Z (Z.of_nat n))%Q).
  { apply Qmult_le_compat_r; [exact H |].
    change 0%Q with (inject_Z 0). rewrite <- Zle_Qle. lia. }
  apply Qfloor_resp_le in Hm. lia.
Qed.

Lemma int_one_scale (n : nat) :
  Retrieval.int ((99 # 99) * inject_Z (Z.of_nat n)) = n.
Proof.
  unfold Retrieval.int, Qfloor, Qmult, inject_Z. simpl Qnum. simpl Qden.
  rewrite Z.mul_comm, Z.div_mul by discriminate. apply Nat2Z.id.
Qed.

Lemma thresholds_length : length Retrieval.thresholds = 100%nat.
Proof. reflexivity. Qed.

Lemma thresholds_nth (k : nat) :
  (k < 100)%nat -> nth k Retrieval.thresholds 0%Q = (Z.of_nat k # 99)%Q.
Proof.
  intros Hk. do 100 (destruct k as [| k]; [reflexivity |]). lia.
Qed.

Lemma thresholds_mono (i j : nat) :
  (i <= j < 100)%nat ->
  (nth i Retrieval.thresholds 0 <= nth j Retrieval.thresholds 0)%Q.
Proof.
  intros H. rewrite !thresholds_nth by lia. unfold Qle. simpl. lia.
Qed.

Lemma filter_length_le {A : Type} (f g : A -> bool) (l : list A) :
  (forall x, In x l -> f x = true -> g x = true) ->
  (length (List.filter f l) <= length (List.filter g l))%nat.
Proof.
  induction l as [| x l IH]; intros H; simpl; [lia |].
  assert (IH' := IH (fun y Hy => H y (or_intror Hy))).
  destruct (f x) eqn:Hf.
  - rewrite (H x (or_introl eq_refl) Hf). simpl. lia.
  - destruct (g x); simpl; lia.
Qed.

Lemma filter_all {A : Type} (f : A -> bool) (l : list A) :
  (forall x, In x l -> f x = true) -> List.filter f l = l.
Proof.
  induction l as [| x l IH]; intros H; simpl; [reflexivity |].
  rewrite (H x (or_introl eq_refl)). f_equal. apply IH. intros y Hy. apply H. now right.
Qed.

Section CurveFacts.

Context {emb score : Type}.
Variable cos : emb -> emb -> score.
Variable gtb : score -> score -> bool.

Lemma insert_desc_perm (x : nat * score) (l : list (nat * score)) :
  Permutation (Retrieval.insert_desc gtb x l) (x :: l).
Proof.
  induction l as [| y l IH]; simpl; [reflexivity |].
  destruct (gtb (snd y) (snd x)); [| reflexivity].
  rewrite IH. apply perm_swap.
Qed.

Lemma argsort_perm (v : list score) :
  Permutation (Retrieval.argsort gtb v) (seq 0 (length v)).
Proof.
  unfold Retrieval.argsort.
  rewrite <- (map_fst_combine (seq 0 (length v)) v) at 2 by apply length_seq.
  apply Permutation_map.
  induction (combine (seq 0 (length v)) v) as [| x l IH]; simpl; [reflexivity |].
  rewrite insert_desc_perm. now constructor.
Qed.

Lemma argsort_length (v : list score) :
  length (Retrieval.argsort gtb v) = length v.
Proof.
  rewrite (Permutation_length (argsort_perm v)). apply length_seq.
Qed.

Lemma in_top_mono (idx : nat) (l : list nat) (t1 t2 : Q) :
  (t1 <= t2)%Q ->
  Retrieval.in_top idx l t1 = true -> Retrieval.in_top idx l t2 = true.
Proof.
  intros Ht. unfold Retrieval.in_top. apply existsb_firstn_mono.
  now apply int_scale_mono.
Qed.

Lemma in_top_full (idx : nat) (v : list score) :
  (idx < length v)%nat ->
  Retrieval.in_top idx (Retrieval.argsort gtb v) (99 # 99) = true.
Proof.
  intros Hidx. unfold Retrieval.in_top.
  rewrite int_one_scale, firstn_all. apply existsb_exists.
  exists idx. split; [| apply Nat.eqb_refl].
  apply (Permutation_in idx (Permutation_sym (argsort_perm v))).
  apply in_seq. lia.
Qed.


Lemma imgs_row_inv (embs1 embs2 : list emb) (row : list bool) :
  In row (Retrieval.imgs cos gtb embs1 embs2) ->
  exists idx emb_src,
    (idx < length embs2)%nat /\
    row = Retrieval.num_right idx
            (Retrieval.argsort gtb (Retrieval.cosine_similarity cos embs1 emb_src)).
Proof.
  intros Hin. unfold Retrieval.imgs in Hin. apply in_map_iff in Hin.
  destruct Hin as [[idx emb_src] [Hrow Hin]]. exists idx, emb_src. split.
  - apply in_combine_l in Hin. apply in_seq in Hin. lia.
  - now subst row.
Qed.

Lemma num_right_nth (idx : nat) (l : list nat) (j : nat) :
  (j < 100)%nat ->
  nth j (Retrieval.num_right idx l) false
  = Retrieval.in_top idx l (nth j Retrieval.thresholds 0%Q).
Proof.
  intros Hj. unfold Retrieval.num_right.
  rewrite (nth_indep _ false (Retrieval.in_top idx l 0%Q))
    by (rewrite length_map, thresholds_length; exact Hj).
  apply map_nth.
Qed.

Lemma imgs_length (embs1 embs2 : list emb) :
  length (Retrieval.imgs cos gtb embs1 embs2) = length embs2.
Proof.
  unfold Retrieval.imgs. rewrite length_map, length_combine, length_seq. lia.
Qed.

Lemma np_sum_axis0_nth (rows : list (list bool)) (j : nat) :
  (j < 100)%nat ->
  nth j (Retrieval.np_sum_axis0 100 rows) 0%nat
  = length (List.filter (fun row => nth j row false) rows).
Proof.
  intros Hj. unfold Retrieval.np_sum_axis0.
  rewrite (nth_indep _ 0%nat
             ((fun k => length (List.filter (fun row => nth k row false) rows)) 0%nat))
    by (rewrite length_map, length_seq; exact Hj).
  rewrite (map_nth (fun k => length (List.filter (fun row => nth k row false) rows))).
  now rewrite seq_nth by exact Hj.
Qed.

Lemma column_count_mono (embs1 embs2 : list emb) (i j : nat) :
  (i <= j < 100)%nat ->
  (nth i (Retrieval.np_sum_axis0 100 (Retrieval.imgs cos gtb embs1 embs2)) 0
   <= nth j (Retrieval.np_sum_axis0 100 (Retrieval.imgs cos gtb embs1 embs2)) 0)%nat.
Proof.
  intros Hij. rewrite !np_sum_axis0_nth by lia.
  apply filter_length_le. intros row Hin Hi.
  destruct (imgs_row_inv embs1 embs2 row Hin) as [idx [e [_ ->]]].
  rewrite num_right_nth in * by lia.
  revert Hi. apply in_top_mono. now apply thresholds_mono.
Qed.

Lemma column_count_full (embs1 embs2 : list emb) :
  (length embs2 <= length embs1)%nat ->
  nth 99 (Retrieval.np_sum_axis0 100 (Retrieval.imgs cos gtb embs1 embs2)) 0%nat
  = length embs2.
Proof.
  intros Hle. rewrite np_sum_axis0_nth by lia.
  rewrite filter_all; [apply imgs_length |].
  intros row Hin.
  destruct (imgs_row_inv embs1 embs2 row Hin) as [idx [e [Hidx ->]]].
  rewrite num_right_nth by lia.
  apply in_top_full. unfold Retrieval.cosine_similarity. rewrite length_map. lia.
Qed.

Lemma fraction_nth (m : nat) (counts : list nat) (j : nat) :
  (j < length counts)%nat ->
  nth j (map (fun c => inject_Z (Z.of_nat c) / inject_Z (Z.of_nat m))%Q counts) 0%Q
  = (inject_Z (Z.of_nat (nth j counts 0%nat)) / inject_Z (Z.of_nat m))%Q.
Proof.
  intros Hj.
  rewrite (nth_indep _ 0%Q
             ((fun c => inject_Z (Z.of_nat c) / inject_Z (Z.of_nat m))%Q 0%nat))
    by (rewrite length_map; exact Hj).
  apply (map_nth (fun c => inject_Z (Z.of_nat c) / inject_Z (Z.of_nat m))%Q).
Qed.

Lemma np_sum_axis0_length (w : nat) (rows : list (list bool)) :
  length (Retrieval.np_sum_axis0 w rows) = w.
Proof. unfold Retrieval.np_sum_axis0. now rewrite length_map, length_seq. Qed.

(** C3, amended: for every first embedding set that does not consist of a
    single vector and every non-empty second set, [get_ROC_data] returns the
    100 thresholds and 100 fraction-correct values that are monotone
    non-decreasing along the thresholds; the last threshold is 1.0, and the
    fraction-correct there equals exactly 1 when the second set has no more
    vectors than the first. *)
Theorem roc_curve_monotone_and_complete (embs1 embs2 : list emb) :
  length embs1 <> 1%nat -> embs2 <> [] ->
  exists fraction_correct,
    Retrieval.get_ROC_data cos gtb embs1 embs2
    = Ok (Retrieval.thresholds, Retrieval.FracArray fraction_correct) /\
    length fraction_correct = 100%nat /\
    (forall i j, (i <= j < 100)%nat ->
       (nth i fraction_correct 0 <= nth j fraction_correct 0)%Q) /\
    (nth 99 Retrieval.thresholds 0 == 1)%Q /\
    ((length embs2 <= length embs1)%nat -> (nth 99 fraction_correct 0 == 1)%Q).
Proof.
  intros Hn Hm. unfold Retrieval.get_ROC_data.
  destruct embs2 as [| e0 embs2']; [contradiction |].
  set (embs2 := e0 :: embs2') in *.
  apply Nat.eqb_neq in Hn. rewrite Hn.
  eexists. split; [reflexivity |].
  assert (Hpos : (0 < inject_Z (Z.of_nat (length embs2)))%Q).
  { change 0%Q with (inject_Z 0). rewrite <- Zlt_Qlt. simpl. lia. }
  rewrite thresholds_length.
  split; [| split; [| split]].
  - now rewrite length_map, np_sum_axis0_length.
  - intros i j Hij.
    rewrite !fraction_nth by (rewrite np_sum_axis0_length; lia).
    apply Qmult_le_compat_r.
    + rewrite <- Zle_Qle. apply inj_le. now apply column_count_mono.
    + apply Qinv_le_0_compat. now apply Qlt_le_weak.
  - reflexivity.
  - intros Hle.
    rewrite fraction_nth by (rewrite np_sum_axis0_length; lia).
    rewrite column_count_full by exact Hle.
    apply Qmult_inv_r. intros H0. rewrite H0 in Hpos. discriminate Hpos.
Qed.

End CurveFacts.

(** C3, as stated, fails: with two candidate vectors and three queries (all
    the one-dimensional vector [[1.]]), the third query has no candidate at
    its own index, and the fraction-correct at threshold 1.0 is 2/3. *)
Lemma roc_more_queries_than_candidates :
  match Retrieval.get_ROC_data Retrieval.cos1 Z.gtb [1; 1]%Z [1; 1; 1]%Z with
  | Ok (ths, Retrieval.FracArray fraction_correct) =>
      (nth 99 ths 0 == 1)%Q /\ (nth 99 fraction_correct 0 == 2 # 3)%Q /\
      ~ (nth 99 fraction_correct 0 == 1)%Q
  | _ => False
  end.
Proof. vm_compute. repeat split; intros H; discriminate H. Qed.

Lemma roc_curve_monotone_and_complete_witness :
  exists fraction_correct,
    Retrieval.get_ROC_data Retrieval.cos1 Z.gtb [1; -1; 1]%Z [1; -2; 3]%Z
    = Ok (Retrieval.thresholds, Retrieval.FracArray fraction_correct) /\
    (nth 98 fraction_correct 0 <= nth 99 fraction_correct 0)%Q /\
    (nth 99 fraction_correct 0 == 1)%Q.
Proof.
  destruct (roc_curve_monotone_and_complete Retrieval.cos1 Z.gtb
              [1; -1; 1]%Z [1; -2; 3]%Z) as [fr [Heq [_ [Hmono [_ Hlast]]]]].
  - simpl. lia.
  - discriminate.
  - exists fr. split; [exact Heq | split].
    + apply Hmono. lia.
    + apply Hlast. simpl. lia.
Defined.

Lemma trapz_ext (y y' x : list Q) :
  Forall2 Qeq y y' -> (Retrieval.trapz y x == Retrieval.trapz y' x)%Q.
Proof.
  intros H. revert x. induction H as [| a b l l' Hab Hl IH]; intros x; [reflexivity |].
  destruct Hl as [| c d l2 l2' Hcd Hl2].
  - reflexivity.
  - destruct x as [| x0 [| x1 x']]; try reflexivity.
    change (((x1 - x0) * (c + a) / 2 + Retrieval.trapz (c :: l2) (x1 :: x')
             == (x1 - x0) * (d + b) / 2 + Retrieval.trapz (d :: l2') (x1 :: x'))%Q).
    rewrite (IH (x1 :: x')), Hab, Hcd. reflexivity.
Qed.

Lemma trapz_thresholds :
  (Retrieval.trapz Retrieval.thresholds Retrieval.thresholds == 1 # 2)%Q.
Proof. vm_compute. reflexivity. Qed.

(** C4: the trapezoid rule of [get_AUC], applied to a curve whose
    fraction-correct value at each of the 100 thresholds equals the
    threshold, yields exactly 1/2 (in exact arithmetic). *)
Theorem diagonal_curve_integrates_to_half (fraction_correct : list Q) :
  Forall2 Qeq fraction_correct Retrieval.thresholds ->
  (Retrieval.trapz fraction_correct Retrieval.thresholds == 1 # 2)%Q.
Proof.
  intros H. rewrite (trapz_ext _ _ _ H). apply trapz_thresholds.
Qed.

Lemma diagonal_curve_integrates_to_half_witness :
  (Retrieval.trapz (map (fun k => Z.of_nat k # 99) (seq 0 100)) Retrieval.thresholds == 1 # 2)%Q.
Proof.
  apply diagonal_curve_integrates_to_half.
  repeat (constructor; [reflexivity |]). constructor.
Defined.

(** ** Metric Engine *)

Section RealFacts.

Import Metrics.
Local Open Scope R_scope.

Lemma xdiv_fin (a b : R) : b <> 0 -> xdiv a b = Fin (a / b).
Proof. intros H. unfold xdiv. now destruct (Req_dec_T b 0). Qed.

Lemma xdiv_zero_zero : xdiv 0 0 = NaN.
Proof.
  unfold xdiv. destruct (Req_dec_T 0 0) as [_ | H]; [| now elim H].
  reflexivity.
Qed.

Lemma Rltb_false (a b : R) : b <= a -> Rltb a b = false.
Proof. intros H. unfold Rltb. destruct (Rlt_dec a b); [lra | reflexivity]. Qed.

Lemma INR_length_pos {A : Type} (l : list A) : l <> [] -> 0 < INR (length l).
Proof.
  intros H. destruct l; [contradiction |]. apply lt_0_INR. simpl. lia.
Qed.

Lemma mean_fin (t : list R) :
  t <> [] -> mean t = Fin (sum t / INR (length t)).
Proof.
  intros H. unfold mean. apply xdiv_fin.
  apply Rgt_not_eq. now apply INR_length_pos.
Qed.

Lemma mean_empty : mean [] = NaN.
Proof. unfold mean. simpl. apply xdiv_zero_zero. Qed.

Lemma sum_bounds (t : list R) :
  Forall (fun v => 0 <= v) t -> 0 <= sum t.
Proof.
  induction 1 as [| v t Hv _ IH]; simpl; lra.
Qed.

Lemma sum_le_length (t : list R) :
  Forall (fun v => v <= 1) t -> sum t <= INR (length t).
Proof.
  induction 1 as [| v t Hv _ IH]; [simpl; lra |].
  change (length (v :: t)) with (S (length t)). rewrite S_INR. simpl. lra.
Qed.

Lemma broadcast2_same_length {A B C : Type} (f : A -> B -> C) (a : list A) (b : list B) :
  length a = length b ->
  broadcast2 f a b = Ok (map (fun '(x, y) => f x y) (combine a b)).
Proof.
  intros H. unfold broadcast2. apply Nat.eqb_eq in H. now rewrite H.
Qed.

Lemma length_zip {A B C : Type} (f : A * B -> C) (a : list A) (b : list B) :
  length a = length b -> length (map f (combine a b)) = length a.
Proof. intros H. rewrite length_map, length_combine. lia. Qed.

Lemma square_length (t : list R) : length (square t) = length t.
Proof. apply length_map. Qed.

Lemma nonempty_length {A : Type} (l : list A) : (0 < length l)%nat -> l <> [].
Proof. destruct l; simpl; [lia | discriminate]. Qed.

(** Same-length, non-empty inputs: the four regression scores, with the
    means written out. *)
Lemma regression_same_length (y_true y_pred : list R) :
  length y_true = length y_pred -> y_true <> [] ->
  exists delta_z outliers,
    length delta_z = length y_true /\ length outliers = length y_true /\
    regression y_true y_pred
    = Ok (mkRegression
            (Fin (sum (map Rabs delta_z) / INR (length y_true)))
            (Fin (sqrt (sum (square delta_z) / INR (length y_true))))
            (one_minus (xdiv (sum (square delta_z)) (sum (square (center y_true)))))
            (Fin (sum (map float outliers) / INR (length y_true)))).
Proof.
  intros Hlen Hne. unfold regression.
  rewrite broadcast2_same_length by exact Hlen. simpl bind.
  set (delta_z := map (fun '(x, y) => x - y) (combine y_true y_pred)).
  assert (Hd : length delta_z = length y_true) by now apply length_zip.
  assert (Hpos : (0 < length y_true)%nat) by (destruct y_true; [contradiction | simpl; lia]).
  rewrite broadcast2_same_length by (rewrite length_map; exact Hd). simpl bind.
  set (outliers := map _ (combine (map Rabs delta_z) y_true)).
  assert (Ho : length outliers = length y_true).
  { unfold outliers. rewrite length_zip; rewrite length_map; exact Hd. }
  exists delta_z, outliers. split; [exact Hd | split; [exact Ho |]].
  rewrite !mean_fin by (apply nonempty_length; rewrite ?square_length, ?length_map; lia).
  rewrite square_length, !length_map, Hd, Ho.
  unfold xsqrt.
  destruct (Rlt_dec _ 0) as [Hneg | _]; [| reflexivity].
  exfalso. revert Hneg. apply Rle_not_lt.
  apply Rmult_le_pos.
  - apply sum_bounds. apply List.Forall_forall. intros v Hv. apply in_map_iff in Hv.
    destruct Hv as [w [<- _]]. nra.
  - apply Rlt_le, Rinv_0_lt_compat, lt_0_INR. exact Hpos.
Qed.


Lemma regression_perfect_example :
  regression [1; 2; 3; 4] [1; 2; 3; 4]
  = Ok (mkRegression (Fin 0) (Fin 0) (Fin 1) (Fin 0)).
Proof.
  unfold regression.
  rewrite broadcast2_same_length by reflexivity.
  cbn [combine map bind].
  rewrite broadcast2_same_length by reflexivity.
  cbn [combine map bind].
  replace (1 - 1) with 0 by lra. replace (2 - 2) with 0 by lra.
  replace (3 - 3) with 0 by lra. replace (4 - 4) with 0 by lra.
  rewrite Rabs_R0.
  rewrite (xdiv_fin 0 (1 + 1)), (xdiv_fin 0 (1 + 2)), (xdiv_fin 0 (1 + 3)),
    (xdiv_fin 0 (1 + 4)) by lra.
  unfold xgt. rewrite !Rltb_false by lra.
  rewrite !mean_fin by discriminate.
  unfold square, center, float. cbn [map sum fold_right length].
  rewrite !INR_IZR_INZ. change (Z.of_nat 4) with 4%Z.
  replace ((0 + (0 + (0 + (0 + 0)))) / 4) with 0 by lra.
  replace ((0 * 0 + (0 * 0 + (0 * 0 + (0 * 0 + 0)))) / 4) with 0 by lra.
  unfold xsqrt. destruct (Rlt_dec 0 0) as [H | _]; [lra |].
  rewrite sqrt_0.
  rewrite xdiv_fin by lra.
  unfold one_minus. do 2 f_equal. f_equal. lra.
Qed.

Lemma regression_empty :
  regression [] [] = Ok (mkRegression NaN NaN NaN NaN).
Proof.
  unfold regression. rewrite broadcast2_same_length by reflexivity.
  cbn [combine map bind]. rewrite broadcast2_same_length by reflexivity.
  cbn [combine map bind]. unfold square, center. cbn [map].
  rewrite mean_empty. cbn [sum fold_right]. now rewrite xdiv_zero_zero.
Qed.

Lemma regression_bounds (y_true y_pred : list R) :
  length y_true = length y_pred -> y_true <> [] ->
  exists s,
    regression y_true y_pred = Ok s /\
    xge (L1 s) 0 /\ xge (L2 s) 0 /\ xge (OLF s) 0 /\ xle (OLF s) 1.
Proof.
  intros Hlen Hne.
  destruct (regression_same_length y_true y_pred Hlen Hne)
    as [delta_z [outliers [Hd [Ho Heq]]]].
  eexists. split; [exact Heq |].
  assert (Hpos : 0 < INR (length y_true)) by now apply INR_length_pos.
  assert (Hinv : 0 < / INR (length y_true)) by now apply Rinv_0_lt_compat.
  assert (Hfloat : Forall (fun v => 0 <= v) (map float outliers)
                   /\ Forall (fun v => v <= 1) (map float outliers)).
  { split; apply List.Forall_forall; intros v Hv; apply in_map_iff in Hv;
      destruct Hv as [[|] [<- _]]; simpl; lra. }
  destruct Hfloat as [Hf0 Hf1]. simpl. repeat split.
  - apply Rmult_le_pos; [| lra]. apply sum_bounds.
    apply List.Forall_forall. intros v Hv. apply in_map_iff in Hv.
    destruct Hv as [w [<- _]]. apply Rabs_pos.
  - apply sqrt_pos.
  - apply Rmult_le_pos; [| lra]. now apply sum_bounds.
  - apply sum_le_length in Hf1. rewrite length_map, Ho in Hf1.
    apply (Rmult_le_reg_r (INR (length y_true))); [exact Hpos |].
    unfold Rdiv. rewrite Rmult_assoc, Rinv_l by lra. lra.
Qed.

Lemma regression_total (y_true y_pred : list R) :
  length y_true = length y_pred ->
  exists s, regression y_true y_pred = Ok s.
Proof.
  intros Hlen. unfold regression.
  rewrite broadcast2_same_length by exact Hlen. simpl bind.
  rewrite broadcast2_same_length
    by (rewrite length_map, length_zip; [reflexivity | exact Hlen]).
  simpl bind. eexists. reflexivity.
Qed.

End RealFacts.

Section ScoreFacts.

Import Metrics.

Context {LC : Type}.
Variables f1_score precision_score recall_score
  : list Z -> list R -> Metrics.average -> R.
Variables accuracy_score balanced_accuracy_score : list Z -> list R -> R.

Local Abbreviation calculate_metrics :=
  (@Metrics.calculate_metrics LC f1_score precision_score recall_score
     accuracy_score balanced_accuracy_score).

Lemma calculate_metrics_regression y_true y_true_label y_pred lc_data
    label combination id s :
  regression y_true y_pred = Ok s ->
  calculate_metrics y_true y_true_label y_pred lc_data label combination id "regression"
  = Ok (mkMetrics label combination (Regression s) id,
        mkRecord label combination id y_pred y_true y_true_label lc_data).
Proof.
  intros H. unfold Metrics.calculate_metrics. simpl. now rewrite H.
Qed.

End ScoreFacts.

(** C6: [calculate_metrics] with task "regression" on true values
    [1,2,3,4] and identical predictions returns the metrics record with
    L1 = 0, L2 = 0, R2 = 1 and OLF = 0 (and the companion prediction record). *)
Theorem calculate_metrics_perfect_regression
    (LC : Type) f1_score precision_score recall_score
    accuracy_score balanced_accuracy_score
    (y_true_label : list Z) (lc_data : option LC)
    (label combination : string) (id : Z) :
  @Metrics.calculate_metrics LC f1_score precision_score recall_score
    accuracy_score balanced_accuracy_score
    [1; 2; 3; 4]%R y_true_label [1; 2; 3; 4]%R lc_data label combination id "regression"
  = Ok (Metrics.mkMetrics label combination
          (Metrics.Regression
             (Metrics.mkRegression (Metrics.Fin 0) (Metrics.Fin 0)
                (Metrics.Fin 1) (Metrics.Fin 0)))
          id,
        Metrics.mkRecord label combination id
          [1; 2; 3; 4]%R [1; 2; 3; 4]%R y_true_label lc_data).
Proof.
  apply calculate_metrics_regression. apply regression_perfect_example.
Qed.

(** C8, as stated, fails: on empty (hence same-length) vectors every mean is
    taken over no element, and L1, L2 and OLF are all [nan], which is
    neither [>= 0] nor [<= 1]. *)
Lemma regression_scores_of_empty_vectors :
  exists s record,
    @Metrics.calculate_metrics unit (fun _ _ _ => 0%R) (fun _ _ _ => 0%R)
      (fun _ _ _ => 0%R) (fun _ _ => 0%R) (fun _ _ => 0%R)
      [] [] [] None "knn" "spectral" 0%Z "regression"
    = Ok (Metrics.mkMetrics "knn" "spectral" (Metrics.Regression s) 0%Z, record) /\
    Metrics.L1 s = Metrics.NaN /\ Metrics.L2 s = Metrics.NaN /\
    Metrics.OLF s = Metrics.NaN /\
    ~ Metrics.xge (Metrics.L1 s) 0.
Proof.
  eexists. eexists. split.
  - apply calculate_metrics_regression. apply regression_empty.
  - simpl. tauto.
Qed.

(** C8, amended: for all non-empty same-length true/predicted regression
    vectors whose entries are finite numbers (no [nan], no [inf]: the
    entries of a [tensor] are reals), [calculate_metrics] returns regression
    scores with L1 >= 0, L2 >= 0 and 0 <= OLF <= 1. *)
Theorem regression_metric_bounds
    (LC : Type) f1_score precision_score recall_score
    accuracy_score balanced_accuracy_score
    (y_true : list R) (y_true_label : list Z) (y_pred : list R)
    (lc_data : option LC) (label combination : string) (id : Z) :
  length y_true = length y_pred -> y_true <> [] ->
  exists s record,
    @Metrics.calculate_metrics LC f1_score precision_score recall_score
      accuracy_score balanced_accuracy_score
      y_true y_true_label y_pred lc_data label combination id "regression"
    = Ok (Metrics.mkMetrics label combination (Metrics.Regression s) id, record) /\
    Metrics.xge (Metrics.L1 s) 0 /\ Metrics.xge (Metrics.L2 s) 0 /\
    Metrics.xge (Metrics.OLF s) 0 /\ Metrics.xle (Metrics.OLF s) 1.
Proof.
  intros Hlen Hne.
  destruct (regression_bounds y_true y_pred Hlen Hne) as [s [Heq Hb]].
  exists s. eexists. split; [| exact Hb].
  now apply calculate_metrics_regression.
Qed.

Lemma regression_metric_bounds_witness :
  exists s record,
    @Metrics.calculate_metrics unit (fun _ _ _ => 0%R) (fun _ _ _ => 0%R)
      (fun _ _ _ => 0%R) (fun _ _ => 0%R) (fun _ _ => 0%R)
      [1; 3]%R [0; 1]%Z [2; 5]%R None "knn" "spectral" 0%Z "regression"
    = Ok (Metrics.mkMetrics "knn" "spectral" (Metrics.Regression s) 0%Z, record) /\
    Metrics.xge (Metrics.L1 s) 0 /\ Metrics.xge (Metrics.L2 s) 0 /\
    Metrics.xge (Metrics.OLF s) 0 /\ Metrics.xle (Metrics.OLF s) 1.
Proof.
  apply regression_metric_bounds; [reflexivity | discriminate].
Defined.

(** ** Class-conditional metrics *)

Lemma mask_select_same_length {A : Type} (mask : list bool) (x : list A) :
  length mask = length x ->
  Metrics.mask_select mask x = Ok (map snd (List.filter fst (combine mask x))).
Proof.
  intros H. unfold Metrics.mask_select. apply Nat.eqb_eq in H. now rewrite H.
Qed.

Lemma selected_length {A : Type} (mask : list bool) (x : list A) :
  length mask = length x ->
  length (map snd (List.filter fst (combine mask x)))
  = length (List.filter (fun b : bool => b) mask).
Proof.
  revert x. induction mask as [| b mask IH]; intros [| a x] H; simpl in *;
    try discriminate; [reflexivity |].
  destruct b; simpl; rewrite IH by lia; reflexivity.
Qed.

Lemma selected_nonempty {A : Type} (f : A -> bool) (l : list A) :
  (0 <? length (List.filter (fun b : bool => b) (map f l)))%nat = existsb f l.
Proof.
  induction l as [| a l IH]; simpl; [reflexivity |].
  destruct (f a); simpl; [reflexivity | exact IH].
Qed.

Lemma mapM_ok {A B : Type} (f : A -> result B) (g : A -> B) (l : list A) :
  (forall x, In x l -> f x = Ok (g x)) -> mapM f l = Ok (map g l).
Proof.
  induction l as [| x l IH]; intros H; simpl; [reflexivity |].
  rewrite (H x (or_introl eq_refl)). simpl.
  rewrite IH by (intros y Hy; apply H; now right). reflexivity.
Qed.

Lemma mapM_Forall2 {A B : Type} (f : A -> result B) (P : A -> B -> Prop) (l : list A) :
  (forall x, In x l -> exists y, f x = Ok y /\ P x y) ->
  exists ys, mapM f l = Ok ys /\ Forall2 P l ys.
Proof.
  induction l as [| x l IH]; intros H; simpl.
  - exists []. split; [reflexivity | constructor].
  - destruct (H x (or_introl eq_refl)) as [y [Hy HP]].
    destruct IH as [ys [Hys HF]]; [intros z Hz; apply H; now right |].
    exists (y :: ys). rewrite Hy, Hys. split; [reflexivity | now constructor].
Qed.

Section ClassFacts.

Import Metrics.

Context {LC : Type}.
Variables f1_score precision_score recall_score
  : list Z -> list R -> Metrics.average -> R.
Variables accuracy_score balanced_accuracy_score : list Z -> list R -> R.

Local Abbreviation class_step :=
  (@Metrics.class_step LC f1_score precision_score recall_score
     accuracy_score balanced_accuracy_score).

Local Abbreviation get_class_dependent_predictions :=
  (@Metrics.get_class_dependent_predictions LC f1_score precision_score
     recall_score accuracy_score balanced_accuracy_score).

Lemma class_step_emits (row : prediction_record R Z LC)
    (entry : Z * (string * string)) :
  well_formed row ->
  exists out,
    class_step row entry = Ok out /\
    map tag out
    = (if existsb (Z.eqb (fst entry)) (y_true_label row)
       then [(Model row, Combination row, id row, fst (snd entry))]
       else []).
Proof.
  intros [Hp Ht]. destruct entry as [label [name color]].
  unfold Metrics.class_step. cbn [fst snd].
  set (mask := map (Z.eqb label) (y_true_label row)).
  assert (Hm : length mask = length (y_true_label row)) by apply length_map.
  rewrite !mask_select_same_length by congruence. cbn [bind].
  rewrite !selected_length by congruence.
  unfold mask at 1 2. rewrite selected_nonempty, andb_diag.
  destruct (existsb (Z.eqb label) (y_true_label row)).
  - cbn [bind].
    destruct (regression_total
                (map snd (List.filter fst (combine mask (y_true row))))
                (map snd (List.filter fst (combine mask (y_pred row)))))
      as [s Hs].
    { rewrite !selected_length by congruence. reflexivity. }
    erewrite calculate_metrics_regression by exact Hs. cbn [bind].
    eexists. split; reflexivity.
  - exists []. split; reflexivity.
Qed.

Lemma row_emits (row : prediction_record R Z LC)
    (class_names : list (Z * (string * string))) :
  well_formed row ->
  exists out,
    (do per_class <- mapM (class_step row) class_names; Ok (concat per_class)) = Ok out /\
    map tag out
    = map (fun entry => (Model row, Combination row, id row, fst (snd entry)))
          (populated_classes (y_true_label row) class_names).
Proof.
  intros Hwf.
  destruct (mapM_Forall2 (class_step row)
              (fun entry out =>
                 map tag out
                 = if existsb (Z.eqb (fst entry)) (y_true_label row)
                   then [(Model row, Combination row, id row, fst (snd entry))]
                   else [])
              class_names) as [per_class [Heq HF]].
  { intros entry _. now apply class_step_emits. }
  rewrite Heq. cbn [bind]. eexists. split; [reflexivity |].
  clear Heq. unfold populated_classes.
  induction HF as [| entry out entries outs He _ IH]; simpl; [reflexivity |].
  rewrite map_app, He, IH.
  destruct (existsb (Z.eqb (fst entry)) (y_true_label row)); reflexivity.
Qed.

(** C9: for every list of well-formed prediction records and every
    class-name map, [get_class_dependent_predictions] raises no error and
    emits, row by row and in the order of the map, one metrics record for
    each class that has at least one member among the row's true labels, and
    none for a class whose partition is empty. *)
Theorem class_metrics_only_for_populated_classes
    (inputs : list (prediction_record R Z LC))
    (class_names : list (Z * (string * string))) :
  Forall well_formed inputs ->
  exists results,
    get_class_dependent_predictions inputs class_names = Ok results /\
    map tag results
    = flat_map (fun row =>
                  map (fun entry => (Model row, Combination row, id row, fst (snd entry)))
                      (populated_classes (y_true_label row) class_names))
               inputs.
Proof.
  intros Hwf. unfold Metrics.get_class_dependent_predictions.
  destruct (mapM_Forall2
              (fun row => do per_class <- mapM (class_step row) class_names;
                          Ok (concat per_class))
              (fun row out =>
                 map tag out
                 = map (fun entry => (Model row, Combination row, id row, fst (snd entry)))
                       (populated_classes (y_true_label row) class_names))
              inputs) as [per_row [Heq HF]].
  { intros row Hin. apply row_emits.
    now apply (proj1 (List.Forall_forall _ _) Hwf). }
  rewrite Heq. cbn [bind]. eexists. split; [reflexivity |].
  clear Heq Hwf.
  induction HF as [| row out rows outs He _ IH]; simpl; [reflexivity |].
  now rewrite map_app, He, IH.
Qed.

End ClassFacts.

Lemma class_metrics_only_for_populated_classes_witness :
  exists results,
    @Metrics.get_class_dependent_predictions unit (fun _ _ _ => 0%R)
      (fun _ _ _ => 0%R) (fun _ _ _ => 0%R) (fun _ _ => 0%R) (fun _ _ => 0%R)
      [Metrics.mkRecord "knn" "spectral" 0%Z [1; 2; 3]%R [1; 2; 4]%R [0; 2; 0]%Z None]
      [(0%Z, ("SN Ia", "blue")); (1%Z, ("SN II", "red")); (2%Z, ("SN Ib", "green"))]
    = Ok results /\
    map Metrics.tag results
    = [("knn", "spectral", 0%Z, "SN Ia"); ("knn", "spectral", 0%Z, "SN Ib")].
Proof.
  apply (@class_metrics_only_for_populated_classes unit _ _ _ _ _
           [Metrics.mkRecord "knn" "spectral" 0%Z [1; 2; 3]%R [1; 2; 4]%R [0; 2; 0]%Z None]
           [(0%Z, ("SN Ia", "blue")); (1%Z, ("SN II", "red")); (2%Z, ("SN Ib", "green"))]).
  repeat constructor.
Defined.

(** ** Result Aggregator *)

Lemma mapM_inv {A B : Type} (f : A -> result B) (l : list A) (ys : list B) :
  mapM f l = Ok ys -> Forall2 (fun x y => f x = Ok y) l ys.
Proof.
  revert ys. induction l as [| x l IH]; intros ys H; simpl in H.
  - injection H as <-. constructor.
  - destruct (f x) as [y | e] eqn:Hy; [| discriminate H].
    simpl in H. destruct (mapM f l) as [ys' | e]; [| discriminate H].
    simpl in H. injection H as <-. constructor; [exact Hy | now apply IH].
Qed.

Lemma dropna_map_Some {A B : Type} (f : A -> B) (l : list A) :
  Aggregator.dropna (map (fun r => Some (f r)) l) = map f l.
Proof. induction l as [| a l IH]; simpl; [reflexivity | now rewrite IH]. Qed.

Lemma np_concatenate_inv {A : Type} (arrays : list (list A)) (joined : list A) :
  Aggregator.np_concatenate arrays = Ok joined ->
  arrays <> [] /\ joined = concat arrays.
Proof.
  destruct arrays; simpl; intros H; [discriminate H |].
  injection H as <-. split; [discriminate | reflexivity].
Qed.

Lemma key_eqb_eq (k1 k2 : string * string * Z) :
  Aggregator.key_eqb k1 k2 = true <-> k1 = k2.
Proof.
  destruct k1 as [[m1 c1] i1], k2 as [[m2 c2] i2]. unfold Aggregator.key_eqb.
  rewrite !andb_true_iff, !String.eqb_eq, Z.eqb_eq.
  split; [intros [[-> ->] ->]; reflexivity | intros H; injection H; auto].
Qed.

Lemma insert_key_In (k k' : string * string * Z) (l : list (string * string * Z)) :
  In k' (Aggregator.insert_key k l) <-> k' = k \/ In k' l.
Proof.
  induction l as [| x l IH]; simpl; [intuition |].
  destruct (Aggregator.key_leb k x); simpl; [intuition |].
  rewrite IH. intuition.
Qed.

Lemma sort_keys_In (k : string * string * Z) (l : list (string * string * Z)) :
  In k (Aggregator.sort_keys l) <-> In k l.
Proof.
  induction l as [| x l IH]; simpl; [reflexivity |].
  rewrite insert_key_In, IH. intuition.
Qed.

Lemma unique_In (k : string * string * Z) (l : list (string * string * Z)) :
  In k (Aggregator.unique l) <-> In k l.
Proof.
  induction l as [| x l IH]; simpl; [reflexivity |].
  rewrite filter_In, IH, negb_true_iff. split.
  - intros [H | [H _]]; auto.
  - intros [H | H]; [now left |].
    destruct (Aggregator.key_eqb k x) eqn:E.
    + left. symmetry. now apply key_eqb_eq.
    + right. now split.
Qed.

Section MergeFacts.

Import Metrics.
Context {T L V : Type}.

Local Abbreviation record := (prediction_record T L (list (string * list V))).

(** The rows of the input that belong to the group of key [k], in input
    order. *)
Local Abbreviation members k results :=
  (List.filter (fun r : record => Aggregator.key_eqb (Aggregator.key_of r) k) results).

Lemma merge_group_inv (k : string * string * Z) (group : list record) (row : record) :
  Aggregator.merge_group (k, group) = Ok row ->
  group <> [] /\
  Aggregator.key_of row = k /\
  y_pred row = concat (map y_pred group) /\
  y_true row = concat (map y_true group) /\
  y_true_label row = concat (map y_true_label group).
Proof.
  destruct k as [[model combination] id_]. unfold Aggregator.merge_group.
  rewrite !dropna_map_Some. intros H.
  destruct (Aggregator.np_concatenate (map y_pred group)) as [preds | e] eqn:Hp;
    [| discriminate H].
  destruct (Aggregator.np_concatenate (map y_true group)) as [trues | e] eqn:Ht;
    [| discriminate H].
  destruct (Aggregator.np_concatenate (map y_true_label group)) as [labels | e] eqn:Hl;
    [| discriminate H].
  destruct (Aggregator.concat_lc_data group) as [lc | e]; [| discriminate H].
  simpl in H. injection H as <-.
  apply np_concatenate_inv in Hp, Ht, Hl.
  destruct Hp as [Hne ->], Ht as [_ ->], Hl as [_ ->].
  repeat split. intros ->. now apply Hne.
Qed.

Lemma merged_rows (results table : list record) :
  Aggregator.mergekfold_results results = Ok table ->
  map Aggregator.key_of table
  = Aggregator.sort_keys (Aggregator.unique (map Aggregator.key_of results))
  /\
  Forall (fun row =>
            let group := members (Aggregator.key_of row) results in
            y_pred row = concat (map y_pred group) /\
            y_true row = concat (map y_true group) /\
            y_true_label row = concat (map y_true_label group))
         table.
Proof.
  unfold Aggregator.mergekfold_results. destruct results as [| r0 results']; [discriminate |].
  set (results := r0 :: results'). intros H. apply mapM_inv in H.
  unfold Aggregator.groupby in H.
  induction (Aggregator.sort_keys (Aggregator.unique (map Aggregator.key_of results)))
    as [| k ks IH] in table, H |- *.
  - inversion H. split; constructor.
  - inversion H as [| g row gs rows Hrow Hrest]; subst.
    destruct (IH rows Hrest) as [Hkeys Hall].
    apply merge_group_inv in Hrow. destruct Hrow as [_ [Hk Harr]].
    split; [simpl; now rewrite Hk, Hkeys |].
    constructor; [| exact Hall]. cbv zeta. now rewrite Hk.
Qed.

Lemma members_nonempty (results : list record) (k : string * string * Z) :
  In k (Aggregator.sort_keys (Aggregator.unique (map Aggregator.key_of results))) ->
  members k results <> [].
Proof.
  rewrite sort_keys_In, unique_In, in_map_iff. intros [r [Hk Hin]] Hnil.
  assert (Hm : In r (members k results)).
  { apply filter_In. split; [exact Hin | now apply key_eqb_eq]. }
  rewrite Hnil in Hm. exact Hm.
Qed.

Lemma dropna_all_None {A : Type} (col : list (option A)) :
  Forall (fun o => o = None) col -> Aggregator.dropna col = [].
Proof. induction 1 as [| o col -> _ IH]; simpl; auto. Qed.

(** Without light-curve payload the merge of a non-empty list returns a
    table. *)
Lemma mergekfold_results_returns (results : list record) :
  results <> [] ->
  Forall (fun r => lc_data r = None) results ->
  exists table, Aggregator.mergekfold_results results = Ok table.
Proof.
  intros Hne Hlc.
  assert (Hrows : exists table,
             mapM Aggregator.merge_group (Aggregator.groupby results) = Ok table).
  { destruct (mapM_Forall2 Aggregator.merge_group (fun _ _ => True)
                (Aggregator.groupby results)) as [table [Heq _]]; [| now exists table].
    intros [k group] Hin. unfold Aggregator.groupby in Hin. apply in_map_iff in Hin.
    destruct Hin as [k' [Hg Hk]]. injection Hg as -> <-.
    apply members_nonempty in Hk.
    assert (Hnone : Aggregator.concat_lc_data (members k results) = Ok None).
    { unfold Aggregator.concat_lc_data. rewrite dropna_all_None; [reflexivity |].
      apply Forall_map. apply List.Forall_forall. intros x Hx. apply filter_In in Hx.
      apply (proj1 (List.Forall_forall _ _) Hlc). tauto. }
    change (exists y, Aggregator.merge_group (k, members k results) = Ok y /\ True).
    revert Hk Hnone. generalize (members k results). intros group Hk Hnone.
    destruct k as [[model combination] id_]. unfold Aggregator.merge_group.
    rewrite !dropna_map_Some, Hnone.
    destruct group as [| r group]; [contradiction |].
    cbn [map Aggregator.np_concatenate bind].
    eexists. split; [reflexivity | exact I]. }
  unfold Aggregator.mergekfold_results.
  destruct results; [contradiction | exact Hrows].
Qed.

End MergeFacts.

(** C5: in the table returned by [mergekfold_results], the [y_pred],
    [y_true] and [y_true_label] arrays of a row are the concatenation, in
    input order, of the arrays of the input records with the row's
    (Model, Combination, id) key, and the length of each is the sum of the
    lengths of those per-record arrays. *)
Theorem merged_arrays_concatenate_group {T L V : Type}
    (results table : list (Metrics.prediction_record T L (list (string * list V)))) :
  Aggregator.mergekfold_results results = Ok table ->
  Forall (fun row =>
            let group :=
              List.filter (fun r => Aggregator.key_eqb (Aggregator.key_of r)
                                      (Aggregator.key_of row))
                          results in
            (Metrics.y_pred row = concat (map Metrics.y_pred group) /\
             Metrics.y_true row = concat (map Metrics.y_true group) /\
             Metrics.y_true_label row = concat (map Metrics.y_true_label group)) /\
            (length (Metrics.y_pred row)
             = list_sum (map (fun r => length (Metrics.y_pred r)) group) /\
             length (Metrics.y_true row)
             = list_sum (map (fun r => length (Metrics.y_true r)) group) /\
             length (Metrics.y_true_label row)
             = list_sum (map (fun r => length (Metrics.y_true_label r)) group)))
         table.
Proof.
  intros H. apply merged_rows in H. destruct H as [_ H].
  eapply List.Forall_impl; [| exact H]. cbv zeta.
  intros row [Hp [Ht Hl]]. split; [auto |].
  rewrite Hp at 1. rewrite Ht at 1. rewrite Hl at 1.
  rewrite !length_concat, !map_map. auto.
Qed.

Lemma merged_arrays_concatenate_group_witness :
  let fold0 := Metrics.mkRecord "knn" "spectral" 0%Z [1; 2]%Z [3; 4]%Z [0; 1]%Z None in
  let fold1 := Metrics.mkRecord "knn" "lightcurve" 0%Z [5]%Z [6]%Z [2]%Z None in
  let fold2 := Metrics.mkRecord "knn" "spectral" 0%Z [7; 8; 9]%Z [7; 8; 9]%Z [1; 1; 0]%Z None in
  let merged1 := Metrics.mkRecord "knn" "lightcurve" 0%Z [5]%Z [6]%Z [2]%Z None in
  let merged2 :=
    Metrics.mkRecord "knn" "spectral" 0%Z
      [1; 2; 7; 8; 9]%Z [3; 4; 7; 8; 9]%Z [0; 1; 1; 1; 0]%Z None in
  @Aggregator.mergekfold_results Z Z Z [fold0; fold1; fold2] = Ok [merged1; merged2] /\
  Metrics.y_pred merged2 = (Metrics.y_pred fold0 ++ Metrics.y_pred fold2)%list /\
  length (Metrics.y_pred merged2) = (2 + (3 + 0))%nat.
Proof.
  intros fold0 fold1 fold2 merged1 merged2.
  assert (Heq : @Aggregator.mergekfold_results Z Z Z [fold0; fold1; fold2]
                = Ok [merged1; merged2]) by reflexivity.
  split; [exact Heq |].
  pose proof (merged_arrays_concatenate_group _ _ Heq) as H.
  inversion H as [| ? ? _ H2]; subst. inversion H2 as [| ? ? Hrow _]; subst.
  destruct Hrow as [[Hp _] [Hn _]]. split; [exact Hp | exact Hn].
Defined.

(** ** [filter_classes] *)

Lemma select_all {A : Type} (mask : list bool) (x : list A) :
  length mask = length x -> Forall (fun b => b = true) mask ->
  Metrics.mask_select mask x = Ok x.
Proof.
  intros Hlen Hall. rewrite mask_select_same_length by exact Hlen. f_equal.
  revert x Hlen. induction Hall as [| b mask -> _ IH]; intros [| a x] Hlen;
    simpl in *; try discriminate; [reflexivity |].
  f_equal. apply IH. lia.
Qed.

Lemma remap_identity (garbage y : list Z) :
  length garbage = length y ->
  Forall (fun v => In v [0; 1; 2]%Z) y ->
  FilterClasses.masked_assign
    (FilterClasses.masked_assign
       (FilterClasses.masked_assign garbage y 0%Z 0) y 1%Z 1) y 2%Z 2
  = y.
Proof.
  intros Hlen Hall. revert garbage Hlen.
  induction Hall as [| v y Hv _ IH]; intros [| g garbage] Hlen; simpl in *;
    try discriminate; [reflexivity |].
  unfold FilterClasses.masked_assign in *. simpl. f_equal.
  - destruct Hv as [<- | [<- | [<- | []]]]; reflexivity.
  - apply IH. lia.
Qed.

Section FilterFacts.

Context {Row V : Type}.
Variable empty_like : list Z -> list Z.
Hypothesis empty_like_length : forall t, length (empty_like t) = length t.

(** C7: on a dataset whose labels are all among the class ids 0, 1, 2 (with
    feature matrices and auxiliary arrays of one row per label),
    [filter_classes] with [target_classes = [0,1,2]] returns every feature
    matrix, the auxiliary data and the label vector unchanged: the remapped
    labels equal the original labels. *)
Theorem filter_classes_all_three_is_identity
    (X_list : list (list Row)) (y : list Z)
    (lc_data : option (list (string * list V))) :
  Forall (fun v => In v [0; 1; 2]%Z) y ->
  Forall (fun X => length X = length y) X_list ->
  (forall d, lc_data = Some d -> Forall (fun kv => length (snd kv) = length y) d) ->
  FilterClasses.filter_classes empty_like X_list y lc_data [0; 1; 2]%Z
  = Ok (X_list, y, lc_data).
Proof.
  intros Hy HX Hlc. unfold FilterClasses.filter_classes.
  set (mask := map (fun v => existsb (Z.eqb v) [0; 1; 2]%Z) y).
  assert (Hmlen : length mask = length y) by apply length_map.
  assert (Hmall : Forall (fun b => b = true) mask).
  { unfold mask. apply Forall_map. apply (List.Forall_impl _ (P := fun v => In v [0; 1; 2]%Z));
      [| exact Hy].
    intros v Hv. apply existsb_exists. exists v. split; [exact Hv | apply Z.eqb_refl]. }
  rewrite (mapM_ok _ (fun X => X)), map_id.
  2:{ intros X HIn. apply select_all; [| exact Hmall].
      rewrite Hmlen. symmetry. now apply (proj1 (List.Forall_forall _ _) HX). }
  cbn [bind].
  assert (Hd : (match lc_data with
                | Some d =>
                    do d' <- mapM (fun '(k, value) =>
                               do v <- Metrics.mask_select mask value; Ok (k, v)) d;
                    Ok (Some d')
                | None => Ok None
                end) = Ok lc_data).
  { destruct lc_data as [d |]; [| reflexivity].
    rewrite (mapM_ok _ (fun kv => kv)), map_id; [reflexivity |].
    intros [k value] HIn. rewrite select_all; [reflexivity | | exact Hmall].
    rewrite Hmlen. symmetry.
    apply (proj1 (List.Forall_forall _ _) (Hlc d eq_refl) (k, value) HIn). }
  rewrite Hd. cbn [bind].
  rewrite select_all by assumption. cbn [bind].
  cbn [length seq combine fold_left].
  rewrite remap_identity; [reflexivity | apply empty_like_length | exact Hy].
Qed.

End FilterFacts.

Lemma filter_classes_all_three_is_identity_witness :
  @FilterClasses.filter_classes Z Z (map (fun _ => 7%Z))
    [[10; 11; 12; 13]%Z; [20; 21; 22; 23]%Z] [2; 0; 1; 2]%Z
    (Some [("x_lc", [5; 6; 7; 8]%Z)]) [0; 1; 2]%Z
  = Ok ([[10; 11; 12; 13]%Z; [20; 21; 22; 23]%Z], [2; 0; 1; 2]%Z,
        Some [("x_lc", [5; 6; 7; 8]%Z)]).
Proof.
  apply filter_classes_all_three_is_identity.
  - intros t. apply length_map.
  - repeat constructor; simpl; tauto.
  - repeat constructor.
  - intros d Hd. injection Hd as <-. repeat constructor.
Defined.

(** * Further properties *)




(** ** File bookkeeping *)

Lemma list_index_found (item : string) (l : list string) (j : nat) :
  Files.list_index item l = Some j ->
  nth_error l j = Some item /\
  forall j', (j' < j)%nat -> nth_error l j' <> Some item.
Proof.
  revert j. induction l as [| x l IH]; intros j H; simpl in H; [discriminate |].
  destruct (String.eqb x item) eqn:E.
  - injection H as <-. apply String.eqb_eq in E. subst x. split; [reflexivity | lia].
  - destruct (Files.list_index item l) as [j0 |]; [| discriminate].
    injection H as <-. destruct (IH j0 eq_refl) as [Hn Hfirst]. split; [exact Hn |].
    intros [| j'] Hlt; simpl.
    + intros Heq. injection Heq as ->. now rewrite String.eqb_refl in E.
    + apply Hfirst. lia.
Qed.

Lemma list_index_existsb (item : string) (l : list string) :
  existsb (String.eqb item) l = match Files.list_index item l with
                                | Some _ => true
                                | None => false
                                end.
Proof.
  induction l as [| x l IH]; simpl; [reflexivity |].
  rewrite (String.eqb_sym item x). destruct (String.eqb x item); [reflexivity |].
  rewrite IH. now destruct (Files.list_index item l).
Qed.

Lemma enumerate_nth_error {A : Type} (l : list A) (a idx : nat) (x : A) :
  In (idx, x) (combine (seq a (length l)) l) ->
  (a <= idx)%nat /\ nth_error l (idx - a) = Some x.
Proof.
  revert a. induction l as [| y l IH]; intros a H; simpl in H; [contradiction |].
  destruct H as [H | H].
  - injection H as <- <-. rewrite Nat.sub_diag. split; [lia | reflexivity].
  - apply IH in H. destruct H as [Hle Hn]. split; [lia |].
    replace (idx - a)%nat with (S (idx - S a)) by lia. exact Hn.
Qed.

Lemma found_positions (st2 l : list string) (a : nat) :
  map snd
    (flat_map (fun '(idx, item) =>
                 match Files.list_index item st2 with
                 | Some index_in_st2 => [(index_in_st2, idx)]
                 | None => []
                 end)
              (combine (seq a (length l)) l))
  = List.filter (fun idx => existsb (String.eqb (nth (idx - a) l "")) st2)
                (seq a (length l)).
Proof.
  revert a. induction l as [| x l IH]; intros a; simpl; [reflexivity |].
  rewrite Nat.sub_diag, map_app, IH, list_index_existsb.
  rewrite (filter_ext_in
             (fun idx => existsb (String.eqb (nth (idx - S a) l "")) st2)
             (fun idx => existsb (String.eqb
                                    match (idx - a)%nat with
                                    | 0%nat => x
                                    | S m => nth m l ""
                                    end) st2)).
  - now destruct (Files.list_index x st2).
  - intros idx Hin. apply in_seq in Hin.
    replace (idx - a)%nat with (S (idx - S a)) by lia. reflexivity.
Qed.

(** X1: [find_indices_in_arrays] returns two lists of one length: the second
    holds, in increasing order, exactly the positions of [st1] whose item
    occurs in [st2], and the first holds, for each of them, the position of
    the first occurrence of that item in [st2]. *)
Theorem find_indices_in_arrays_spec (st1 st2 : list string) :
  let '(indices_in_st2, indices_in_st1) := Files.find_indices_in_arrays st1 st2 in
  indices_in_st1
  = List.filter (fun idx => existsb (String.eqb (nth idx st1 "")) st2)
                (seq 0 (length st1))
  /\
  Forall2 (fun j idx =>
             exists item,
               nth_error st1 idx = Some item /\ nth_error st2 j = Some item /\
               forall j', (j' < j)%nat -> nth_error st2 j' <> Some item)
          indices_in_st2 indices_in_st1.
Proof.
  unfold Files.find_indices_in_arrays. split.
  - rewrite found_positions. apply filter_ext. intros idx. now rewrite Nat.sub_0_r.
  - assert (H : forall pairs : list (nat * string),
               (forall idx item, In (idx, item) pairs -> nth_error st1 idx = Some item) ->
               let found := flat_map (fun '(idx, item) =>
                              match Files.list_index item st2 with
                              | Some index_in_st2 => [(index_in_st2, idx)]
                              | None => []
                              end) pairs in
               Forall2 (fun j idx =>
                          exists item,
                            nth_error st1 idx = Some item /\ nth_error st2 j = Some item /\
                            forall j', (j' < j)%nat -> nth_error st2 j' <> Some item)
                       (map fst found) (map snd found)).
    { induction pairs as [| [idx item] pairs IH]; intros Hp; simpl; [constructor |].
      assert (IH' := IH (fun i it Hi => Hp i it (or_intror Hi))).
      destruct (Files.list_index item st2) as [j |] eqn:Hj; simpl; [| exact IH'].
      constructor; [| exact IH'].
      exists item. split; [apply Hp; now left |]. now apply list_index_found. }
    apply H. intros idx item Hin. apply enumerate_nth_error in Hin.
    destruct Hin as [_ Hn]. now rewrite Nat.sub_0_r in Hn.
Qed.

(** X2: [is_subset] answers [True] exactly when every name of the first
    list occurs in the second, whatever the order and the repetitions. *)
Theorem is_subset_iff (subset superset : list string) :
  Files.is_subset subset superset = true <->
  forall name, In name subset -> In name superset.
Proof.
  unfold Files.is_subset. rewrite bool_decide_eq_true, elem_of_subseteq.
  split; intros H name Hin.
  - apply list_elem_of_In, (elem_of_list_to_set (C := gset string)).
    apply H. apply elem_of_list_to_set. now apply list_elem_of_In.
  - apply elem_of_list_to_set. apply list_elem_of_In. apply H.
    apply list_elem_of_In. now apply (elem_of_list_to_set (C := gset string)) in Hin.
Qed.



Lemma select_by_predicate {A : Type} (g : A -> bool) (l : list A) :
  map snd (List.filter fst (combine (map g l) l)) = List.filter g l.
Proof.
  induction l as [| x l IH]; simpl; [reflexivity |].
  destruct (g x); simpl; now rewrite IH.
Qed.

Lemma mapM_raise {A B : Type} (f : A -> result B) (e : exn) (l : list A) :
  (forall x, In x l -> f x = Raise e \/ exists y, f x = Ok y) ->
  Exists (fun x => f x = Raise e) l ->
  mapM f l = Raise e.
Proof.
  intros Hall Hex. induction Hex as [x l Hx | x l _ IH]; simpl.
  - now rewrite Hx.
  - destruct (Hall x (or_introl eq_refl)) as [Hx | [y Hx]]; rewrite Hx; [reflexivity |].
    simpl. rewrite IH; [reflexivity |]. intros z Hz. apply Hall. now right.
Qed.

Lemma mask_select_cases {A : Type} (mask : list bool) (x : list A) :
  Metrics.mask_select mask x = Raise IndexError \/
  exists y, Metrics.mask_select mask x = Ok y.
Proof.
  unfold Metrics.mask_select. destruct (length mask =? length x)%nat; eauto.
Qed.

Lemma mask_select_mismatch {A : Type} (mask : list bool) (x : list A) :
  length mask <> length x -> Metrics.mask_select mask x = Raise IndexError.
Proof.
  intros H. unfold Metrics.mask_select. apply Nat.eqb_neq in H. now rewrite H.
Qed.

Lemma np_isin_length (elements test_elements : list string) :
  length (Files.np_isin elements test_elements) = length elements.
Proof. apply length_map. Qed.

Lemma filter_files_names {A : Type} (avail names : list string) (x : list A) :
  length x = length names ->
  Metrics.mask_select (Files.np_isin names avail) x
  = Ok (map snd (List.filter fst (combine (Files.np_isin names avail) x))) /\
  length (map snd (List.filter fst (combine (Files.np_isin names avail) x)))
  = length (List.filter (fun f => existsb (String.eqb f) avail) names).
Proof.
  intros H. split.
  - apply mask_select_same_length. now rewrite np_isin_length.
  - rewrite selected_length by now rewrite np_isin_length.
    rewrite <- (select_by_predicate (fun f => existsb (String.eqb f) avail) names).
    symmetry. apply selected_length. apply np_isin_length.
Qed.

Lemma select_pairs_by_predicate {A B : Type} (g : A -> bool) (l : list A) (d : list B) :
  map snd (List.filter fst (combine (map g l) d))
  = map snd (List.filter (fun p => g (fst p)) (combine l d)).
Proof.
  revert d. induction l as [| x l IH]; intros [| v d]; simpl; try reflexivity.
  destruct (g x); simpl; now rewrite IH.
Qed.

Lemma combine_filter_pairs {A B : Type} (g : A -> bool) (l : list A) (d : list B) :
  length d = length l ->
  combine (List.filter g l)
          (map snd (List.filter (fun p => g (fst p)) (combine l d)))
  = List.filter (fun p => g (fst p)) (combine l d).
Proof.
  revert d. induction l as [| x l IH]; intros [| v d] Hd; simpl in *;
    try discriminate; [reflexivity |].
  destruct (g x); simpl; rewrite IH by lia; reflexivity.
Qed.

(** X3: when every data array has one entry per file name, [filter_files]
    returns the mask of the names that are available, those names in their
    original order, and as many data arrays as it was given, each holding
    exactly the entries that sat at the position of an available name, in
    their original order (so one entry per kept name, still paired with
    it). *)
Theorem filter_files_aligned {A : Type} (filenames_avail filenames_to_filter : list string)
    (data_to_filter : list (list A)) :
  Forall (fun d => length d = length filenames_to_filter) data_to_filter ->
  exists kept data,
    Files.filter_files filenames_avail filenames_to_filter (Some data_to_filter)
    = Ok (Files.np_isin filenames_to_filter filenames_avail, kept, Some data) /\
    kept = List.filter (fun f => existsb (String.eqb f) filenames_avail)
                       filenames_to_filter /\
    data = map (fun d =>
                  map snd (List.filter
                             (fun p => existsb (String.eqb (fst p)) filenames_avail)
                             (combine filenames_to_filter d)))
               data_to_filter /\
    Forall2 (fun d d' =>
               combine kept d'
               = List.filter (fun p => existsb (String.eqb (fst p)) filenames_avail)
                             (combine filenames_to_filter d))
            data_to_filter data /\
    length data = length data_to_filter /\
    Forall (fun d => length d = length kept) data.
Proof.
  intros Hlen. unfold Files.filter_files.
  set (avail := fun f => existsb (String.eqb f) filenames_avail).
  set (inds_filt := Files.np_isin filenames_to_filter filenames_avail).
  assert (Hnames : Metrics.mask_select inds_filt filenames_to_filter
                   = Ok (List.filter avail filenames_to_filter)).
  { unfold inds_filt. rewrite (proj1 (filter_files_names _ _ _ eq_refl)).
    unfold Files.np_isin. now rewrite select_by_predicate. }
  assert (Hdata : mapM (Metrics.mask_select inds_filt) data_to_filter
                  = Ok (map (fun d =>
                               map snd (List.filter (fun p => avail (fst p))
                                          (combine filenames_to_filter d)))
                            data_to_filter)).
  { apply mapM_ok. intros d Hd.
    rewrite <- (select_pairs_by_predicate avail).
    apply (proj1 (filter_files_names filenames_avail filenames_to_filter d
                    (proj1 (List.Forall_forall _ _) Hlen d Hd))). }
  exists (List.filter avail filenames_to_filter).
  exists (map (fun d => map snd (List.filter (fun p => avail (fst p))
                                   (combine filenames_to_filter d)))
              data_to_filter).
  split; [| split; [reflexivity | split; [reflexivity | split; [| split]]]].
  - destruct data_to_filter as [| d ds]; [simpl; now rewrite Hnames |].
    rewrite Hdata. cbn [bind]. now rewrite Hnames.
  - clear Hnames Hdata. induction Hlen as [| d ds Hd _ IH]; constructor; [| exact IH].
    apply (combine_filter_pairs avail). exact Hd.
  - apply length_map.
  - apply List.Forall_forall. intros d' Hd'. apply in_map_iff in Hd'.
    destruct Hd' as [d [<- Hd]].
    rewrite <- (select_pairs_by_predicate avail).
    apply (proj2 (filter_files_names filenames_avail filenames_to_filter d
                    (proj1 (List.Forall_forall _ _) Hlen d Hd))).
Qed.

Lemma filter_files_aligned_witness :
  Files.filter_files ["b.npy"; "c.npy"] ["a.npy"; "b.npy"; "c.npy"]
    (Some [[1; 2; 3]%Z; [4; 5; 6]%Z])
  = Ok ([false; true; true], ["b.npy"; "c.npy"], Some [[2; 3]%Z; [5; 6]%Z]).
Proof.
  destruct (filter_files_aligned ["b.npy"; "c.npy"] ["a.npy"; "b.npy"; "c.npy"]
              [[1; 2; 3]%Z; [4; 5; 6]%Z])
    as [kept [data [Heq [Hkept [Hdata _]]]]].
  - repeat constructor.
  - rewrite Heq, Hkept, Hdata. reflexivity.
Defined.

(** X4: [filter_files] raises an [IndexError] as soon as one data array does
    not have one entry per file name. *)
Theorem filter_files_misaligned_data {A : Type}
    (filenames_avail filenames_to_filter : list string) (data_to_filter : list (list A)) :
  Exists (fun d => length d <> length filenames_to_filter) data_to_filter ->
  Files.filter_files filenames_avail filenames_to_filter (Some data_to_filter)
  = Raise IndexError.
Proof.
  intros Hex. unfold Files.filter_files.
  assert (Hraise : mapM (Metrics.mask_select
                           (Files.np_isin filenames_to_filter filenames_avail))
                        data_to_filter = Raise IndexError).
  { apply mapM_raise.
    - intros d _. apply mask_select_cases.
    - eapply List.Exists_impl; [| exact Hex]. intros d Hd.
      apply mask_select_mismatch. now rewrite np_isin_length. }
  destruct data_to_filter as [| d ds]; [inversion Hex |].
  now rewrite Hraise.
Qed.

Lemma filter_files_misaligned_data_witness :
  Files.filter_files ["b.npy"] ["a.npy"; "b.npy"] (Some [[1; 2]%Z; [4; 5; 6]%Z])
  = Raise IndexError.
Proof.
  apply filter_files_misaligned_data. right. left. simpl. lia.
Defined.

Lemma Forall2_right {A B : Type} (R : A -> B -> Prop) (P : B -> Prop)
    (xs : list A) (ys : list B) :
  (forall x y, R x y -> P y) -> Forall2 R xs ys -> Forall P ys.
Proof. intros HRP H. induction H; constructor; eauto. Qed.

Lemma np_isin_kept (avail names : list string) :
  Files.np_isin (List.filter (fun f => existsb (String.eqb f) avail) names) avail
  = repeat true (length (List.filter (fun f => existsb (String.eqb f) avail) names)).
Proof.
  unfold Files.np_isin. induction names as [| f names IH]; simpl; [reflexivity |].
  destruct (existsb (String.eqb f) avail) eqn:E; simpl; [| exact IH].
  now rewrite E, IH.
Qed.

Lemma select_all_true {A : Type} (x : list A) :
  Metrics.mask_select (repeat true (length x)) x = Ok x.
Proof.
  apply select_all; [apply repeat_length |].
  apply List.Forall_forall. intros b Hb. now apply repeat_spec in Hb.
Qed.

Lemma mask_select_inv {A : Type} (mask : list bool) (x y : list A) :
  Metrics.mask_select mask x = Ok y ->
  length mask = length x /\ y = map snd (List.filter fst (combine mask x)).
Proof.
  unfold Metrics.mask_select. destruct (length mask =? length x)%nat eqn:E; [| discriminate].
  apply Nat.eqb_eq in E. intros H. injection H as <-. now split.
Qed.

(** X5: filtering the result of [filter_files] again against the same
    available names changes nothing: the mask is all true and the names and
    data come back as they are. *)
Theorem filter_files_idempotent {A : Type}
    (filenames_avail filenames_to_filter : list string)
    (data_to_filter : option (list (list A)))
    (inds_filt : list bool) (kept : list string) (data : option (list (list A))) :
  Files.filter_files filenames_avail filenames_to_filter data_to_filter
  = Ok (inds_filt, kept, data) ->
  Files.filter_files filenames_avail kept data
  = Ok (repeat true (length kept), kept, data).
Proof.
  unfold Files.filter_files at 1. intros H.
  set (g := fun f => existsb (String.eqb f) filenames_avail).
  set (mask := Files.np_isin filenames_to_filter filenames_avail) in H.
  assert (Hm : length mask = length filenames_to_filter) by apply np_isin_length.
  assert (Hdata : exists data',
             match data_to_filter with
             | Some (d :: ds) =>
                 do filtered <- mapM (Metrics.mask_select mask) (d :: ds);
                 Ok (Some filtered)
             | Some [] => Ok (Some [])
             | None => Ok None
             end = Ok data' /\
             forall ds', data' = Some ds' ->
                         Forall (fun d' => length d' = length (List.filter g filenames_to_filter))
                                ds').
  { destruct data_to_filter as [[| d ds] |].
    - eexists. split; [reflexivity |]. intros ds' Hs. injection Hs as <-. constructor.
    - destruct (mapM (Metrics.mask_select mask) (d :: ds)) as [filtered | e] eqn:Hf;
        [| discriminate H].
      eexists. split; [reflexivity |]. intros ds' Hs. injection Hs as <-.
      apply mapM_inv in Hf. eapply Forall2_right; [| exact Hf].
      intros x y Hxy. cbv beta in Hxy.
      apply mask_select_inv in Hxy. destruct Hxy as [Hl ->].
      rewrite selected_length by exact Hl.
      rewrite <- (select_by_predicate g filenames_to_filter).
      symmetry. apply selected_length. exact Hm.
    - eexists. split; [reflexivity |]. intros ds' Hs. discriminate Hs. }
  destruct Hdata as [data' [Heq Hlen]]. rewrite Heq in H. cbn [bind] in H.
  rewrite mask_select_same_length in H by exact Hm. cbn [bind] in H.
  injection H as _ <- <-.
  unfold g in Hlen. clear g. unfold mask, Files.np_isin.
  rewrite select_by_predicate.
  unfold Files.filter_files. rewrite np_isin_kept, select_all_true.
  destruct data' as [[| d' ds'] |]; try reflexivity.
  rewrite (mapM_ok _ (fun d => d)), map_id; [reflexivity |].
  intros x Hx. specialize (Hlen _ eq_refl).
  rewrite <- (proj1 (List.Forall_forall _ _) Hlen x Hx). apply select_all_true.
Qed.

Lemma filter_files_idempotent_witness :
  Files.filter_files ["b.npy"; "c.npy"] ["b.npy"; "c.npy"]
    (Some [[2; 3]%Z; [5; 6]%Z])
  = Ok ([true; true], ["b.npy"; "c.npy"], Some [[2; 3]%Z; [5; 6]%Z]).
Proof.
  apply (filter_files_idempotent ["b.npy"; "c.npy"] ["a.npy"; "b.npy"; "c.npy"]
           (Some [[1; 2; 3]%Z; [4; 5; 6]%Z]) [false; true; true]).
  reflexivity.
Defined.

(** X6: [get_valid_dir] returns the first entry of the list that is a
    directory, every entry before it not being one, and raises the
    [ValueError] exactly when no entry is a directory. *)
Theorem get_valid_dir_first_valid (isdir : string -> bool) (data_dirs : list string) :
  match Files.get_valid_dir isdir data_dirs with
  | Ok data_dir =>
      exists before after,
        data_dirs = (before ++ data_dir :: after)%list /\
        isdir data_dir = true /\
        Forall (fun d => isdir d = false) before
  | Raise e =>
      e = ValueError "No valid data directory found" /\
      Forall (fun d => isdir d = false) data_dirs
  end.
Proof.
  induction data_dirs as [| d rest IH]; simpl; [split; [reflexivity | constructor] |].
  destruct (isdir d) eqn:Hd.
  - exists [], rest. repeat split; [exact Hd | constructor].
  - destruct (Files.get_valid_dir isdir rest) as [data_dir | e].
    + destruct IH as [before [after [-> [Hv Hb]]]].
      exists (d :: before), after. repeat split; [exact Hv | now constructor].
    + destruct IH as [-> Hall]. split; [reflexivity | now constructor].
Qed.



Lemma endswith_nonempty (s suffix : string) :
  Files.endswith s suffix = true -> suffix <> "" -> s <> "".
Proof.
  intros H Hs ->. simpl in H. destruct suffix; [now apply Hs | discriminate H].
Qed.

Lemma append_nonempty_r (a b : string) : b <> "" -> (a ++ b) <> "".
Proof.
  intros Hb. destruct a; simpl; [exact Hb | discriminate].
Qed.

Lemma os_path_join_nonempty (a b : string) : b <> "" -> Files.os_path_join a b <> "".
Proof.
  intros Hb. unfold Files.os_path_join.
  destruct (String.prefix "/" b); [exact Hb |].
  destruct (String.eqb a "" || Files.endswith a "/").
  - now apply append_nonempty_r.
  - apply append_nonempty_r. discriminate.
Qed.

Section CheckpointFacts.

Variable os_walk : string -> list (string * list string * list string).
Variable int : string -> option Z.

(** A checkpoint file whose name carries a readable epoch number. *)
Local Abbreviation readable filename epoch :=
  (Files.endswith filename ".ckpt" = true /\ Files.epoch_of int filename = Some epoch).

Lemma scan_invariant (dirpath : string) (filenames : list string)
    (st : option Z * option string) (seen : list string) :
  (st = (None, None) /\ (forall f e, In f seen -> ~ readable f e)
   \/
   exists f e, st = (Some e, Some (Files.os_path_join dirpath f)) /\
               In f seen /\ readable f e /\
               forall f' e', In f' seen -> readable f' e' -> (e <= e')%Z) ->
  let st' := fold_left (Files.scan_file int dirpath) filenames st in
  (st' = (None, None) /\ (forall f e, In f (seen ++ filenames)%list -> ~ readable f e)
   \/
   exists f e, st' = (Some e, Some (Files.os_path_join dirpath f)) /\
               In f (seen ++ filenames)%list /\ readable f e /\
               forall f' e', In f' (seen ++ filenames)%list -> readable f' e' -> (e <= e')%Z).
Proof.
  revert st seen. induction filenames as [| x filenames IH]; intros st seen Hinv.
  - simpl. now rewrite app_nil_r.
  - cbn [fold_left].
    replace (seen ++ x :: filenames)%list with ((seen ++ [x]) ++ filenames)%list
      by now rewrite <- app_assoc.
    apply IH. unfold Files.scan_file.
    destruct (Files.endswith x ".ckpt") eqn:Hend.
    + destruct (Files.epoch_of int x) as [epoch |] eqn:Hep.
      * destruct Hinv as [[-> Hnone] | [f [e [-> [Hin [Hr Hmin]]]]]]; cbn [fst].
        -- right. exists x, epoch. repeat split; auto.
           ++ apply in_or_app. right. now left.
           ++ intros f' e' Hin' [Hend' Hep']. apply in_app_or in Hin'.
              destruct Hin' as [Hin' | [<- | []]].
              ** exfalso. apply (Hnone f' e' Hin'). now split.
              ** rewrite Hep in Hep'. injection Hep' as <-. lia.
        -- destruct (epoch <? e)%Z eqn:Hlt.
           ++ apply Z.ltb_lt in Hlt. right. exists x, epoch. repeat split; auto.
              ** apply in_or_app. right. now left.
              ** intros f' e' Hin' [Hend' Hep']. apply in_app_or in Hin'.
                 destruct Hin' as [Hin' | [<- | []]].
                 --- assert (e <= e')%Z by (apply (Hmin f' e' Hin'); now split). lia.
                 --- rewrite Hep in Hep'. injection Hep' as <-. lia.
           ++ apply Z.ltb_ge in Hlt. right. exists f, e. repeat split; try apply Hr.
              ** apply in_or_app. now left.
              ** intros f' e' Hin' [Hend' Hep']. apply in_app_or in Hin'.
                 destruct Hin' as [Hin' | [<- | []]].
                 --- apply (Hmin f' e' Hin'). now split.
                 --- rewrite Hep in Hep'. injection Hep' as <-. exact Hlt.
      * destruct Hinv as [[-> Hnone] | [f [e [-> [Hin [Hr Hmin]]]]]].
        -- left. split; [reflexivity |]. intros f' e' Hin' [Hend' Hep'].
           apply in_app_or in Hin'. destruct Hin' as [Hin' | [<- | []]].
           ++ apply (Hnone f' e' Hin'). now split.
           ++ rewrite Hep in Hep'. discriminate.
        -- right. exists f, e. repeat split; try apply Hr.
           ++ apply in_or_app. now left.
           ++ intros f' e' Hin' [Hend' Hep']. apply in_app_or in Hin'.
              destruct Hin' as [Hin' | [<- | []]].
              ** apply (Hmin f' e' Hin'). now split.
              ** rewrite Hep in Hep'. discriminate.
    + destruct Hinv as [[-> Hnone] | [f [e [-> [Hin [Hr Hmin]]]]]].
      * left. split; [reflexivity |]. intros f' e' Hin' [Hend' Hep'].
        apply in_app_or in Hin'. destruct Hin' as [Hin' | [<- | []]].
        -- apply (Hnone f' e' Hin'). now split.
        -- rewrite Hend in Hend'. discriminate.
      * right. exists f, e. repeat split; try apply Hr.
        -- apply in_or_app. now left.
        -- intros f' e' Hin' [Hend' Hep']. apply in_app_or in Hin'.
           destruct Hin' as [Hin' | [<- | []]].
           ++ apply (Hmin f' e' Hin'). now split.
           ++ rewrite Hend in Hend'. discriminate.
Qed.

Lemma scan_dir_smallest_epoch (dirpath : string) (dirnames filenames : list string) :
  (Files.scan_dir int (dirpath, dirnames, filenames) = [] /\
   forall f e, In f filenames -> ~ readable f e)
  \/
  exists f e,
    Files.scan_dir int (dirpath, dirnames, filenames) = [Files.os_path_join dirpath f] /\
    In f filenames /\ readable f e /\
    forall f' e', In f' filenames -> readable f' e' -> (e <= e')%Z.
Proof.
  unfold Files.scan_dir.
  destruct (scan_invariant dirpath filenames (None, None) [])
    as [[-> Hnone] | [f [e [-> [Hin [Hr Hmin]]]]]].
  - left. split; [reflexivity |]. intros f e [].
  - left. split; [reflexivity | exact Hnone].
  - right. exists f, e. cbn [snd].
    destruct (String.eqb (Files.os_path_join dirpath f) "") eqn:E.
    + apply String.eqb_eq in E. exfalso. revert E. apply os_path_join_nonempty.
      apply (endswith_nonempty f ".ckpt"); [apply Hr | discriminate].
    + repeat split; auto; apply Hr.
Qed.

(** X7: [get_checkpoint_paths] returns three lists of one length, with at
    most one path per directory of the walk; each path joins a directory
    with one of its [.ckpt] files whose epoch number is readable and smallest
    among the readable ones of that directory, and every directory holding
    such a file contributes a path.  Files with unreadable names are skipped. *)
Theorem get_checkpoint_paths_smallest_epoch (root_dir name : string) (id : Z) :
  let '(ckpt_paths, names, ids) := Files.get_checkpoint_paths os_walk int root_dir name id in
  names = repeat name (length ckpt_paths) /\ ids = repeat id (length ckpt_paths) /\
  (length ckpt_paths <= length (os_walk root_dir))%nat /\
  Forall (fun path =>
            exists dirpath dirnames filenames f e,
              In (dirpath, dirnames, filenames) (os_walk root_dir) /\
              In f filenames /\ readable f e /\
              path = Files.os_path_join dirpath f /\
              forall f' e', In f' filenames -> readable f' e' -> (e <= e')%Z)
         ckpt_paths /\
  (forall dirpath dirnames filenames f e,
      In (dirpath, dirnames, filenames) (os_walk root_dir) ->
      In f filenames -> readable f e ->
      exists f0, In f0 filenames /\ In (Files.os_path_join dirpath f0) ckpt_paths).
Proof.
  unfold Files.get_checkpoint_paths. repeat split.
  - induction (os_walk root_dir) as [| [[dirpath dirnames] filenames] walk IH];
      [simpl; lia |].
    cbn [flat_map]. rewrite length_app.
    destruct (scan_dir_smallest_epoch dirpath dirnames filenames)
      as [[Heq _] | [f [e [Heq _]]]]; rewrite Heq; simpl; lia.
  - apply List.Forall_forall. intros path Hp. apply in_flat_map in Hp.
    destruct Hp as [[[dirpath dirnames] filenames] [Hw Hp]].
    destruct (scan_dir_smallest_epoch dirpath dirnames filenames)
      as [[Hnil _] | [f [e [Heq [Hin [Hr Hmin]]]]]].
    + rewrite Hnil in Hp. contradiction.
    + rewrite Heq in Hp. destruct Hp as [<- | []].
      exists dirpath, dirnames, filenames, f, e. auto.
  - intros dirpath dirnames filenames f e Hw Hin Hr.
    destruct (scan_dir_smallest_epoch dirpath dirnames filenames)
      as [[_ Hnone] | [f0 [e0 [Heq [Hin0 _]]]]].
    + exfalso. apply (Hnone f e Hin Hr).
    + exists f0. split; [exact Hin0 |]. apply in_flat_map.
      exists (dirpath, dirnames, filenames). split; [exact Hw |].
      rewrite Heq. now left.
Qed.

End CheckpointFacts.



(** ** Training Monitor: whole runs *)

Lemma run_app (st : Monitor.state) (evs1 evs2 : list Monitor.event) :
  Monitor.run st (evs1 ++ evs2)%list
  = match Monitor.run st evs1 with
    | (st', None) => Monitor.run st' evs2
    | (st', Some e) => (st', Some e)
    end.
Proof.
  revert st. induction evs1 as [| ev evs1 IH]; intros st; simpl; [reflexivity |].
  destruct (Monitor.step st ev) as [st' [e |]]; [reflexivity | apply IH].
Qed.

Lemma run_batches (st : Monitor.state) (losses : list Q) :
  Monitor.run st (map (fun l => Monitor.TrainBatchEnd (Monitor.OutTensor l)) losses)
  = (Monitor.mkState (Monitor.train_loss_history st) (Monitor.val_loss_history st)
       (Monitor.epoch_train_loss st ++ losses) (Monitor.auc_val_history st)
       (Monitor.R2_val_history st) (Monitor.R2_train_history st), None).
Proof.
  revert st. induction losses as [| l losses IH]; intros st; simpl.
  - rewrite app_nil_r. now destruct st.
  - rewrite IH. simpl. now rewrite <- app_assoc.
Qed.

(** X8: starting with no pending batch loss, a run of at least one training
    batch followed by a train-epoch end appends the mean of those batch
    losses to the train-loss history, appends the feed's [R2_train] entry,
    empties the pending losses and raises nothing. *)
Theorem epoch_mean_is_recorded (st : Monitor.state) (losses : list Q)
    (feed : gmap string Q) :
  Monitor.epoch_train_loss st = [] -> losses <> [] ->
  Monitor.run st
    (map (fun l => Monitor.TrainBatchEnd (Monitor.OutTensor l)) losses
     ++ [Monitor.TrainEpochEnd feed])%list
  = (Monitor.mkState
       (Monitor.train_loss_history st ++ [(Monitor.sum losses / Monitor.len losses)%Q])
       (Monitor.val_loss_history st) [] (Monitor.auc_val_history st)
       (Monitor.R2_val_history st)
       (Monitor.R2_train_history st ++ [feed !! "R2_train"]),
     None).
Proof.
  intros Hempty Hne. rewrite run_app, run_batches, Hempty. simpl.
  unfold Monitor.on_train_epoch_end. simpl.
  destruct losses as [| l losses]; [contradiction | reflexivity].
Qed.

Lemma epoch_mean_is_recorded_witness :
  Monitor.run Monitor.init
    [Monitor.TrainBatchEnd (Monitor.OutTensor 1);
     Monitor.TrainBatchEnd (Monitor.OutTensor 2);
     Monitor.TrainEpochEnd ∅]
  = (Monitor.mkState [(Monitor.sum [1; 2] / Monitor.len [1; 2])%Q] [] [] [] [] [None],
     None).
Proof.
  assert (Hne : [1; 2]%Q <> []) by discriminate.
  exact (epoch_mean_is_recorded Monitor.init [1; 2]%Q ∅ eq_refl Hne).
Defined.

Lemma train_epoch_end_resets (st : Monitor.state) (feed : gmap string Q) :
  match Monitor.on_train_epoch_end st feed with
  | (st', None) => Monitor.epoch_train_loss st' = []
  | (st', Some e) => st' = st /\ e = ZeroDivisionError /\ Monitor.epoch_train_loss st = []
  end.
Proof.
  unfold Monitor.on_train_epoch_end.
  destruct (Monitor.epoch_train_loss st) eqn:E; simpl; auto.
Qed.

(** X9: two train-epoch ends in a row never both succeed: whatever came
    before, the run ends with an exception (the second one divides by the
    zero pending batch losses). *)
Theorem consecutive_epoch_ends_fail (st : Monitor.state) (evs rest : list Monitor.event)
    (feed1 feed2 : gmap string Q) :
  snd (Monitor.run st
         (evs ++ Monitor.TrainEpochEnd feed1 :: Monitor.TrainEpochEnd feed2 :: rest)%list)
  <> None.
Proof.
  rewrite run_app. destruct (Monitor.run st evs) as [st1 [e |]]; [discriminate |].
  cbn [Monitor.run Monitor.step].
  pose proof (train_epoch_end_resets st1 feed1) as H1.
  destruct (Monitor.on_train_epoch_end st1 feed1) as [st2 [e |]]; [discriminate |].
  unfold Monitor.on_train_epoch_end. rewrite H1. discriminate.
Qed.

Lemma step_histories (st : Monitor.state) (ev : Monitor.event) :
  let st' := fst (Monitor.step st ev) in
  (exists a, Monitor.train_loss_history st' = (Monitor.train_loss_history st ++ a)%list /\
             exists b, Monitor.R2_train_history st' = (Monitor.R2_train_history st ++ b)%list /\
                       length a = length b) /\
  (exists a, Monitor.val_loss_history st' = (Monitor.val_loss_history st ++ a)%list) /\
  (exists a, Monitor.auc_val_history st' = (Monitor.auc_val_history st ++ a)%list) /\
  (exists a, Monitor.R2_val_history st' = (Monitor.R2_val_history st ++ a)%list).
Proof.
  assert (Hnil : forall (A : Type) (l : list A), exists a, l = (l ++ a)%list)
    by (intros A l; exists []; now rewrite app_nil_r).
  assert (Hnil2 : forall (A B : Type) (l : list A) (l' : list B),
             exists a, l = (l ++ a)%list /\
                       exists b, l' = (l' ++ b)%list /\ length a = length b).
  { intros A B l l'. exists []. split; [now rewrite app_nil_r |].
    exists []. split; [now rewrite app_nil_r | reflexivity]. }
  destruct ev as [out | feed | feed | feed]; simpl.
  - unfold Monitor.on_train_batch_end.
    destruct out as [d | l]; [destruct (d !! "loss") |]; simpl; auto.
  - unfold Monitor.on_train_epoch_end.
    destruct (Monitor.epoch_train_loss st); simpl; auto.
    repeat split; auto. eexists. split; [reflexivity |]. eexists. split; reflexivity.
  - unfold Monitor.on_validation_epoch_end.
    destruct (feed !! "val_loss"); simpl; auto.
    repeat split; auto. eexists. reflexivity.
  - unfold Monitor.on_validation_end.
    destruct (Monitor.truthy (feed !! "AUC_val") || Monitor.truthy (feed !! "AUC_val1")).
    + destruct (feed !! "AUC_val").
      * simpl. repeat split; auto; eexists; reflexivity.
      * destruct (mapM _ _); simpl; repeat split; auto; eexists; reflexivity.
    + simpl. repeat split; auto. eexists. reflexivity.
Qed.

(** X10: along any run, every history only grows at its end (what was
    recorded stays, in place), and the train-loss and training-R2 histories
    grow by the same number of entries. *)
Theorem histories_are_append_only (st : Monitor.state) (evs : list Monitor.event) :
  let st' := fst (Monitor.run st evs) in
  (exists a, Monitor.train_loss_history st' = (Monitor.train_loss_history st ++ a)%list /\
             exists b, Monitor.R2_train_history st' = (Monitor.R2_train_history st ++ b)%list /\
                       length a = length b) /\
  (exists a, Monitor.val_loss_history st' = (Monitor.val_loss_history st ++ a)%list) /\
  (exists a, Monitor.auc_val_history st' = (Monitor.auc_val_history st ++ a)%list) /\
  (exists a, Monitor.R2_val_history st' = (Monitor.R2_val_history st ++ a)%list).
Proof.
  revert st. induction evs as [| ev evs IH]; intros st.
  - simpl. repeat split; try (exists []; now rewrite app_nil_r).
    exists []. split; [now rewrite app_nil_r |].
    exists []. split; [now rewrite app_nil_r | reflexivity].
  - cbn [Monitor.run]. pose proof (step_histories st ev) as Hs.
    destruct (Monitor.step st ev) as [st1 [e |]]; [exact Hs |].
    cbn [fst] in Hs. specialize (IH st1). cbv zeta in IH, Hs |- *.
    destruct Hs as [[a1 [Ha1 [b1 [Hb1 Hl1]]]] [[v1 Hv1] [[u1 Hu1] [r1 Hr1]]]].
    destruct IH as [[a2 [Ha2 [b2 [Hb2 Hl2]]]] [[v2 Hv2] [[u2 Hu2] [r2 Hr2]]]].
    repeat split.
    + exists (a1 ++ a2)%list. rewrite Ha2, Ha1, <- app_assoc. split; [reflexivity |].
      exists (b1 ++ b2)%list. rewrite Hb2, Hb1, <- app_assoc. split; [reflexivity |].
      rewrite !length_app. lia.
    + exists (v1 ++ v2)%list. now rewrite Hv2, Hv1, <- app_assoc.
    + exists (u1 ++ u2)%list. now rewrite Hu2, Hu1, <- app_assoc.
    + exists (r1 ++ r2)%list. now rewrite Hr2, Hr1, <- app_assoc.
Qed.

(** X11: at a validation-round end without [AUC_val] but with the three
    sub-scores (the first one non-zero), the monitor appends their mean to
    the AUC history and the feed's [R2_val] entry to the validation-R2
    history, and raises nothing. *)
Theorem auc_average_of_sub_scores (st : Monitor.state) (feed : gmap string Q)
    (a1 a2 a3 : Q) :
  feed !! "AUC_val" = None ->
  feed !! "AUC_val1" = Some a1 -> feed !! "AUC_val2" = Some a2 ->
  feed !! "AUC_val3" = Some a3 ->
  ~ (a1 == 0)%Q ->
  Monitor.on_validation_end st feed
  = (Monitor.mkState (Monitor.train_loss_history st) (Monitor.val_loss_history st)
       (Monitor.epoch_train_loss st)
       (Monitor.auc_val_history st ++ [(Monitor.sum [a1; a2; a3] / 3)%Q])
       (Monitor.R2_val_history st ++ [feed !! "R2_val"])
       (Monitor.R2_train_history st),
     None).
Proof.
  intros H0 H1 H2 H3 Hnz. unfold Monitor.on_validation_end.
  rewrite H0, H1. cbn [Monitor.truthy orb mapM]. rewrite H1, H2, H3.
  destruct (Qeq_bool a1 0) eqn:E; [apply Qeq_bool_iff in E; contradiction |].
  reflexivity.
Qed.

Lemma auc_average_of_sub_scores_witness :
  let feed : gmap string Q :=
    <["AUC_val1" := (1 # 2)%Q]> (<["AUC_val2" := (1 # 4)%Q]> (<["AUC_val3" := (3 # 4)%Q]> ∅)) in
  Monitor.auc_val_history (fst (Monitor.on_validation_end Monitor.init feed))
  = [(Monitor.sum [1 # 2; 1 # 4; 3 # 4] / 3)%Q].
Proof.
  intros feed.
  assert (Hnz : ~ (1 # 2 == 0)%Q) by discriminate.
  pose proof (auc_average_of_sub_scores Monitor.init feed (1 # 2) (1 # 4) (3 # 4)
                eq_refl eq_refl eq_refl eq_refl Hnz) as H.
  rewrite H. reflexivity.
Defined.

(** X12: at a validation-round end with [AUC_val] present, its value is
    appended to the AUC history unless it is zero and [AUC_val1] is absent or
    zero: an AUC of exactly 0 counts as missing. *)
Theorem auc_val_recorded_unless_zero (st : Monitor.state) (feed : gmap string Q) (v : Q) :
  feed !! "AUC_val" = Some v ->
  Monitor.on_validation_end st feed
  = (Monitor.mkState (Monitor.train_loss_history st) (Monitor.val_loss_history st)
       (Monitor.epoch_train_loss st)
       (if negb (Qeq_bool v 0) || Monitor.truthy (feed !! "AUC_val1")
        then Monitor.auc_val_history st ++ [v]
        else Monitor.auc_val_history st)
       (Monitor.R2_val_history st ++ [feed !! "R2_val"])
       (Monitor.R2_train_history st),
     None).
Proof.
  intros H. unfold Monitor.on_validation_end. rewrite H. cbn [Monitor.truthy].
  destruct (negb (Qeq_bool v 0) || Monitor.truthy (feed !! "AUC_val1")); reflexivity.
Qed.

Lemma auc_val_recorded_unless_zero_witness :
  let feed : gmap string Q := <["AUC_val" := 0%Q]> ∅ in
  Monitor.auc_val_history (fst (Monitor.on_validation_end Monitor.init feed)) = [].
Proof.
  intros feed.
  pose proof (auc_val_recorded_unless_zero Monitor.init feed 0 eq_refl) as H.
  rewrite H. reflexivity.
Defined.

(** X13: at a validation-round end without [AUC_val], with a non-zero
    [AUC_val1] but [AUC_val2] or [AUC_val3] missing, the monitor raises an
    [AttributeError]; the AUC history is unchanged, but the validation-R2
    history has already received its entry. *)
Theorem missing_sub_score_raises_after_R2 (st : Monitor.state) (feed : gmap string Q)
    (a1 : Q) :
  feed !! "AUC_val" = None ->
  feed !! "AUC_val1" = Some a1 -> ~ (a1 == 0)%Q ->
  feed !! "AUC_val2" = None \/ feed !! "AUC_val3" = None ->
  Monitor.on_validation_end st feed
  = (Monitor.mkState (Monitor.train_loss_history st) (Monitor.val_loss_history st)
       (Monitor.epoch_train_loss st) (Monitor.auc_val_history st)
       (Monitor.R2_val_history st ++ [feed !! "R2_val"])
       (Monitor.R2_train_history st),
     Some AttributeError).
Proof.
  intros H0 H1 Hnz Hmiss. unfold Monitor.on_validation_end.
  rewrite H0, H1. cbn [Monitor.truthy orb mapM]. rewrite H1.
  destruct (Qeq_bool a1 0) eqn:E; [apply Qeq_bool_iff in E; contradiction |].
  cbn [negb Monitor.item bind].
  destruct (feed !! "AUC_val2") as [a2 |]; [| reflexivity].
  destruct (feed !! "AUC_val3") as [a3 |]; [| reflexivity].
  destruct Hmiss as [H | H]; discriminate H.
Qed.

Lemma missing_sub_score_raises_after_R2_witness :
  let feed : gmap string Q := <["AUC_val1" := (1 # 2)%Q]> (<["R2_val" := (1 # 3)%Q]> ∅) in
  Monitor.on_validation_end Monitor.init feed
  = (Monitor.mkState [] [] [] [] [Some (1 # 3)%Q] [], Some AttributeError).
Proof.
  intros feed.
  assert (Hnz : ~ (1 # 2 == 0)%Q) by discriminate.
  exact (missing_sub_score_raises_after_R2 Monitor.init feed (1 # 2)
           eq_refl eq_refl Hnz (or_introl eq_refl)).
Defined.



(** ** Retrieval Evaluator: range of the curve and of its area *)

Lemma trapz_le (y y' x : list Q) :
  Forall2 Qle y y' -> Sorted Qle x ->
  (Retrieval.trapz y x <= Retrieval.trapz y' x)%Q.
Proof.
  intros H. revert x. induction H as [| a b l l' Hab Hl IH]; intros x Hx;
    [apply Qle_refl |].
  destruct Hl as [| c d l2 l2' Hcd Hl2].
  - apply Qle_refl.
  - destruct x as [| x0 [| x1 x']]; try apply Qle_refl.
    change (((x1 - x0) * (c + a) / 2 + Retrieval.trapz (c :: l2) (x1 :: x')
             <= (x1 - x0) * (d + b) / 2 + Retrieval.trapz (d :: l2') (x1 :: x'))%Q).
    inversion Hx as [| ? ? Hs Hhd]; subst. inversion Hhd as [| ? ? H01]; subst.
    apply Qplus_le_compat; [| now apply IH].
    apply Qmult_le_compat_r; [| discriminate].
    rewrite !(Qmult_comm (x1 - x0)).
    apply Qmult_le_compat_r.
    + now apply Qplus_le_compat.
    + unfold Qminus. rewrite <- (Qplus_opp_r x0). apply Qplus_le_compat; [exact H01 | apply Qle_refl].
Qed.

Lemma thresholds_sorted : Sorted Qle Retrieval.thresholds.
Proof.
  unfold Retrieval.thresholds, Retrieval.linspace.
  cbn [seq map]. repeat (constructor; [| try constructor; discriminate]). constructor.
Qed.

Lemma Forall2_repeat_l (c : Q) (l : list Q) :
  Forall (fun v => (c <= v)%Q) l -> Forall2 Qle (repeat c (length l)) l.
Proof. induction 1; simpl; constructor; auto. Qed.

Lemma Forall2_repeat_r (c : Q) (l : list Q) :
  Forall (fun v => (v <= c)%Q) l -> Forall2 Qle l (repeat c (length l)).
Proof. induction 1; simpl; constructor; auto. Qed.

Lemma filter_length_bound {A : Type} (f : A -> bool) (l : list A) :
  (length (List.filter f l) <= length l)%nat.
Proof. induction l as [| x l IH]; simpl; [lia |]. destruct (f x); simpl; lia. Qed.

Lemma fraction_in_unit_interval (m : nat) (counts : list nat) :
  (0 < m)%nat -> Forall (fun c => (c <= m)%nat) counts ->
  Forall (fun v => (0 <= v)%Q /\ (v <= 1)%Q)
         (map (fun c => inject_Z (Z.of_nat c) / inject_Z (Z.of_nat m))%Q counts).
Proof.
  intros Hm H. apply Forall_map. eapply List.Forall_impl; [| exact H].
  intros c Hc. cbv beta in Hc |- *.
  assert (Hpos : (0 < inject_Z (Z.of_nat m))%Q).
  { change 0%Q with (inject_Z 0). rewrite <- Zlt_Qlt. lia. }
  split.
  - apply Qle_shift_div_l; [exact Hpos |]. rewrite Qmult_0_l.
    change 0%Q with (inject_Z 0). rewrite <- Zle_Qle. lia.
  - apply Qle_shift_div_r; [exact Hpos |]. rewrite Qmult_1_l.
    rewrite <- Zle_Qle. lia.
Qed.

Section AreaFacts.

Context {emb score : Type}.
Variable cos : emb -> emb -> score.
Variable gtb : score -> score -> bool.

Lemma column_counts_bounded (embs1 embs2 : list emb) :
  Forall (fun c => (c <= length embs2)%nat)
         (Retrieval.np_sum_axis0 100 (Retrieval.imgs cos gtb embs1 embs2)).
Proof.
  unfold Retrieval.np_sum_axis0. apply Forall_map. apply List.Forall_forall.
  intros j _. cbv beta.
  etransitivity; [apply filter_length_bound |].
  now rewrite imgs_length.
Qed.

(** X14: whenever [get_ROC_data] yields a curve (first set not a single
    vector, second set non-empty), [get_AUC] returns a score between 0
    and 1. *)
Theorem get_AUC_in_unit_interval (embs1 embs2 : list emb) :
  length embs1 <> 1%nat -> embs2 <> [] ->
  exists auc,
    Retrieval.get_AUC cos gtb embs1 embs2 = Ok (Some auc) /\
    (0 <= auc)%Q /\ (auc <= 1)%Q.
Proof.
  intros Hn Hm. unfold Retrieval.get_AUC, Retrieval.get_ROC_data.
  destruct embs2 as [| e0 embs2']; [contradiction |].
  set (embs2 := e0 :: embs2') in *.
  apply Nat.eqb_neq in Hn. rewrite Hn. cbn [bind].
  eexists. split; [reflexivity |].
  rewrite thresholds_length.
  set (fr := map _ (Retrieval.np_sum_axis0 100 (Retrieval.imgs cos gtb embs1 embs2))).
  assert (Hfr : Forall (fun v => (0 <= v)%Q /\ (v <= 1)%Q) fr).
  { apply fraction_in_unit_interval; [simpl; lia | apply column_counts_bounded]. }
  assert (Hlen : length fr = 100%nat).
  { unfold fr. now rewrite length_map, np_sum_axis0_length. }
  split.
  - assert (H0 : (Retrieval.trapz (repeat 0%Q 100) Retrieval.thresholds == 0)%Q)
      by (vm_compute; reflexivity).
    rewrite <- H0. apply trapz_le; [| apply thresholds_sorted].
    rewrite <- Hlen. apply Forall2_repeat_l.
    eapply List.Forall_impl; [| exact Hfr]. intros v Hv. apply Hv.
  - assert (H1 : (Retrieval.trapz (repeat 1%Q 100) Retrieval.thresholds == 1)%Q)
      by (vm_compute; reflexivity).
    rewrite <- H1. apply trapz_le; [| apply thresholds_sorted].
    rewrite <- Hlen. apply Forall2_repeat_r.
    eapply List.Forall_impl; [| exact Hfr]. intros v Hv. apply Hv.
Qed.

Lemma in_top_below_one (idx : nat) (l : list nat) (k : nat) :
  (k * length l < 99)%nat ->
  Retrieval.in_top idx l (Z.of_nat k # 99) = false.
Proof.
  intros H. unfold Retrieval.in_top.
  replace (Retrieval.int ((Z.of_nat k # 99) * inject_Z (Z.of_nat (length l)))) with 0%nat;
    [reflexivity |].
  unfold Retrieval.int, Qfloor, Qmult, inject_Z. simpl Qnum. simpl Qden.
  rewrite Z.div_small; [reflexivity | lia].
Qed.

Lemma filter_none {A : Type} (f : A -> bool) (l : list A) :
  (forall x, In x l -> f x = false) -> List.filter f l = [].
Proof.
  induction l as [| x l IH]; intros H; simpl; [reflexivity |].
  rewrite (H x (or_introl eq_refl)). apply IH. intros y Hy. apply H. now right.
Qed.

(** X15: the curve of [get_ROC_data] is 0 at every threshold k/99 with
    k * len(embs1) < 99: no query counts as correct while the top-k pool is
    empty, in particular at threshold 0. *)
Theorem roc_curve_zero_below_first_candidate (embs1 embs2 : list emb)
    (fraction_correct : list Q) (k : nat) :
  Retrieval.get_ROC_data cos gtb embs1 embs2
  = Ok (Retrieval.thresholds, Retrieval.FracArray fraction_correct) ->
  (k < 100)%nat -> (k * length embs1 < 99)%nat ->
  (nth k fraction_correct 0 == 0)%Q.
Proof.
  intros H Hk100 Hk. unfold Retrieval.get_ROC_data in H.
  destruct embs2 as [| e0 embs2']; [discriminate H |].
  set (embs2 := e0 :: embs2') in *.
  destruct (length embs1 =? 1)%nat; [discriminate H |].
  rewrite thresholds_length in H.
  set (fr := map _ (Retrieval.np_sum_axis0 100 _)) in H.
  assert (Hfr : fr = fraction_correct) by congruence.
  subst fraction_correct. unfold fr. clear H fr.
  rewrite fraction_nth by (rewrite np_sum_axis0_length; exact Hk100).
  rewrite np_sum_axis0_nth by exact Hk100.
  rewrite filter_none; [reflexivity |].
  intros row Hin.
  destruct (imgs_row_inv cos gtb embs1 embs2 row Hin) as [idx [e [_ ->]]].
  rewrite num_right_nth by exact Hk100.
  rewrite thresholds_nth by exact Hk100.
  apply in_top_below_one.
  now rewrite argsort_length; unfold Retrieval.cosine_similarity; rewrite length_map.
Qed.

End AreaFacts.

Lemma get_AUC_in_unit_interval_witness :
  exists auc,
    Retrieval.get_AUC Retrieval.cos1 Z.gtb [1; -1; 1]%Z [1; -2; 3]%Z = Ok (Some auc) /\
    (0 <= auc)%Q /\ (auc <= 1)%Q.
Proof.
  apply get_AUC_in_unit_interval; [simpl; lia | discriminate].
Defined.

Lemma roc_curve_zero_below_first_candidate_witness :
  exists fraction_correct,
    Retrieval.get_ROC_data Retrieval.cos1 Z.gtb [1; -1; 1]%Z [1; -2; 3]%Z
    = Ok (Retrieval.thresholds, Retrieval.FracArray fraction_correct) /\
    (nth 32 fraction_correct 0 == 0)%Q.
Proof.
  eexists. split; [reflexivity |].
  apply (roc_curve_zero_below_first_candidate Retrieval.cos1 Z.gtb
           [1; -1; 1]%Z [1; -2; 3]%Z _ 32); [reflexivity | lia | simpl; lia].
Defined.



(** ** Metric Engine: perfect and mismatched inputs *)

Section ResidualFacts.

Import Metrics.
Local Open Scope R_scope.

(** The residuals [y_true - y_pred] of two vectors of one length. *)
Local Abbreviation residuals y_true y_pred :=
  (map (fun '(x, y) => x - y) (combine y_true y_pred)).

Lemma residuals_zero_iff (y_true y_pred : list R) :
  length y_true = length y_pred ->
  (Forall (fun d => d = 0) (residuals y_true y_pred) <-> y_pred = y_true).
Proof.
  revert y_pred. induction y_true as [| x y_true IH]; intros [| p y_pred] Hlen;
    simpl in *; try discriminate.
  - split; [reflexivity | constructor].
  - split.
    + intros H. inversion H as [| ? ? Hd Hrest]; subst.
      f_equal; [lra | apply IH; [lia | exact Hrest]].
    + intros H. injection H as -> ->. constructor; [lra |].
      apply IH; [lia | reflexivity].
Qed.

Lemma sum_abs_zero (d : list R) :
  sum (map Rabs d) = 0 <-> Forall (fun v => v = 0) d.
Proof.
  induction d as [| a d IH]; simpl; [split; [constructor | reflexivity] |].
  assert (Ha := Rabs_pos a).
  assert (Hs : 0 <= sum (map Rabs d)).
  { apply sum_bounds. apply List.Forall_forall. intros v Hv. apply in_map_iff in Hv.
    destruct Hv as [w [<- _]]. apply Rabs_pos. }
  split.
  - intros H. constructor.
    + destruct (Req_dec a 0) as [-> | Hne]; [reflexivity |].
      apply Rabs_pos_lt in Hne. lra.
    + apply IH. lra.
  - intros H. inversion H as [| ? ? -> Hrest]; subst. apply IH in Hrest.
    rewrite Rabs_R0. lra.
Qed.

Lemma sum_square_nonneg (d : list R) : 0 <= sum (square d).
Proof.
  apply sum_bounds. apply List.Forall_forall. intros v Hv. apply in_map_iff in Hv.
  destruct Hv as [w [<- _]]. nra.
Qed.

Lemma sum_square_zero (d : list R) :
  sum (square d) = 0 <-> Forall (fun v => v = 0) d.
Proof.
  induction d as [| a d IH]; simpl; [split; [constructor | reflexivity] |].
  assert (Hs := sum_square_nonneg d). fold (square d).
  split.
  - intros H. constructor; [nra | apply IH; nra].
  - intros H. inversion H as [| ? ? -> Hrest]; subst. apply IH in Hrest.
    fold (square d). lra.
Qed.

End ResidualFacts.

Section DegenerateFacts.

Import Metrics.
Local Open Scope R_scope.

Context {LC : Type}.
Variables f1_score precision_score recall_score
  : list Z -> list R -> Metrics.average -> R.
Variables accuracy_score balanced_accuracy_score : list Z -> list R -> R.

Local Abbreviation calculate_metrics :=
  (@Metrics.calculate_metrics LC f1_score precision_score recall_score
     accuracy_score balanced_accuracy_score).

Local Abbreviation residuals y_true y_pred :=
  (map (fun '(x, y) => x - y) (combine y_true y_pred)).

(** X16: for non-empty predictions equal to the true values (finite
    entries), [calculate_metrics] gives L1 = 0, L2 = 0 and OLF = 0, also
    where a true value is -1 and the outlier ratio is 0/0; R2 is then either
    1 or [nan], never another value. *)
Theorem perfect_prediction_scores (y : list R) (y_true_label : list Z)
    (lc_data : option LC) (label combination : string) (id : Z) :
  y <> [] ->
  exists s record,
    calculate_metrics y y_true_label y lc_data label combination id "regression"
    = Ok (mkMetrics label combination (Regression s) id, record) /\
    L1 s = Fin 0 /\ L2 s = Fin 0 /\ OLF s = Fin 0 /\
    (R2 s = Fin 1 \/ R2 s = NaN).
Proof.
  intros Hne.
  assert (Hz : Forall (fun d => d = 0) (residuals y y))
    by now apply residuals_zero_iff.
  assert (Hpos : 0 < INR (length y)) by now apply INR_length_pos.
  assert (Hreg : regression y y
                 = Ok (mkRegression
                         (Fin 0) (Fin 0)
                         (one_minus (xdiv 0 (sum (square (center y)))))
                         (Fin 0))).
  { unfold regression. rewrite broadcast2_same_length by reflexivity. cbn [bind].
    rewrite broadcast2_same_length
      by (rewrite length_map, length_zip; reflexivity).
    cbn [bind].
    rewrite !mean_fin.
    2-4: apply nonempty_length;
         repeat rewrite ?square_length, ?length_map, ?length_combine;
         destruct y; [contradiction | simpl; lia].
    rewrite (proj2 (sum_abs_zero _) Hz), (proj2 (sum_square_zero _) Hz).
    assert (Hout : sum (map float
                     (map (fun '(d, y0) => xgt (xdiv d (1 + y0)) 0.15)
                          (combine (map Rabs (residuals y y)) y))) = 0).
    { clear Hpos Hne. revert Hz. generalize (residuals y y) as d. intros d Hz.
      revert y. induction Hz as [| a d -> _ IH]; intros [| v y]; simpl;
        try reflexivity.
      rewrite IH, Rabs_R0. unfold xdiv.
      destruct (Req_dec_T (1 + v) 0) as [_ | Hv].
      - destruct (Req_dec_T 0 0) as [_ | H0]; [simpl; lra | now elim H0].
      - simpl. rewrite Rltb_false; [simpl; lra |]. unfold Rdiv. rewrite Rmult_0_l. lra. }
    rewrite Hout. unfold Rdiv. rewrite !Rmult_0_l.
    unfold xsqrt. destruct (Rlt_dec 0 0) as [H | _]; [lra |]. now rewrite sqrt_0. }
  eexists. eexists. split; [apply calculate_metrics_regression, Hreg |].
  cbn [L1 L2 R2 OLF]. repeat split.
  destruct (Req_dec_T (sum (square (center y))) 0) as [Hss | Hss].
  - right. rewrite Hss. now rewrite xdiv_zero_zero.
  - left. rewrite xdiv_fin by exact Hss. simpl. f_equal. unfold Rdiv. lra.
Qed.

(** X17: in the regression task, true and predicted vectors of different
    lengths, neither of length one, make [calculate_metrics] raise a
    [RuntimeError] (the subtraction cannot broadcast). *)
Theorem mismatched_lengths_raise (y_true : list R) (y_true_label : list Z)
    (y_pred : list R) (lc_data : option LC) (label combination : string) (id : Z) :
  length y_true <> length y_pred ->
  length y_true <> 1%nat -> length y_pred <> 1%nat ->
  calculate_metrics y_true y_true_label y_pred lc_data label combination id "regression"
  = Raise RuntimeError.
Proof.
  intros Hne H1 H2. unfold Metrics.calculate_metrics, regression, broadcast2.
  cbn [String.eqb Ascii.eqb Bool.eqb andb].
  apply Nat.eqb_neq in Hne. rewrite Hne.
  destruct y_true as [| a [| a' y_true]]; destruct y_pred as [| p [| p' y_pred]];
    simpl in *; try reflexivity; try lia.
Qed.

End DegenerateFacts.

Lemma perfect_prediction_scores_witness :
  exists s record,
    @Metrics.calculate_metrics unit (fun _ _ _ => 0%R) (fun _ _ _ => 0%R)
      (fun _ _ _ => 0%R) (fun _ _ => 0%R) (fun _ _ => 0%R)
      [2; -1]%R [0; 1]%Z [2; -1]%R None "knn" "meta" 0%Z "regression"
    = Ok (Metrics.mkMetrics "knn" "meta" (Metrics.Regression s) 0%Z, record) /\
    Metrics.L1 s = Metrics.Fin 0 /\ Metrics.L2 s = Metrics.Fin 0 /\
    Metrics.OLF s = Metrics.Fin 0 /\
    (Metrics.R2 s = Metrics.Fin 1 \/ Metrics.R2 s = Metrics.NaN).
Proof.
  apply perfect_prediction_scores. discriminate.
Defined.

Lemma mismatched_lengths_raise_witness :
  @Metrics.calculate_metrics unit (fun _ _ _ => 0%R) (fun _ _ _ => 0%R)
    (fun _ _ _ => 0%R) (fun _ _ => 0%R) (fun _ _ => 0%R)
    [1; 2; 3]%R [0; 1; 0]%Z [1; 2]%R None "knn" "meta" 0%Z "regression"
  = Raise RuntimeError.
Proof.
  apply mismatched_lengths_raise; simpl; lia.
Defined.

(** ** Result Aggregator: the keys and the size of the merged table *)

Lemma string_compare_total (s1 s2 : string) :
  String.compare s1 s2 = Gt -> String.compare s2 s1 = Lt.
Proof.
  intros H. rewrite String.compare_antisym, H. reflexivity.
Qed.

Lemma key_leb_total (k1 k2 : string * string * Z) :
  Aggregator.key_leb k1 k2 = false -> Aggregator.key_leb k2 k1 = true.
Proof.
  destruct k1 as [[m1 c1] i1], k2 as [[m2 c2] i2]. unfold Aggregator.key_leb.
  rewrite (String.compare_antisym m1 m2), (String.compare_antisym c1 c2).
  destruct (String.compare m2 m1); simpl; try discriminate; try reflexivity.
  destruct (String.compare c2 c1); simpl; try discriminate; try reflexivity.
  intros H. apply Z.leb_gt in H. apply Z.leb_le. lia.
Qed.

Lemma insert_key_sorted (k : string * string * Z) (l : list (string * string * Z)) :
  Sorted (fun a b => Aggregator.key_leb a b = true) l ->
  Sorted (fun a b => Aggregator.key_leb a b = true) (Aggregator.insert_key k l).
Proof.
  induction 1 as [| x l Hs IH Hhd]; simpl; [repeat constructor |].
  destruct (Aggregator.key_leb k x) eqn:E.
  - constructor; [now constructor | now constructor].
  - constructor; [exact IH |].
    destruct l as [| y l]; simpl.
    + constructor. now apply key_leb_total.
    + inversion Hhd; subst.
      destruct (Aggregator.key_leb k y); constructor; auto using key_leb_total.
Qed.

Lemma sort_keys_sorted (l : list (string * string * Z)) :
  Sorted (fun a b => Aggregator.key_leb a b = true) (Aggregator.sort_keys l).
Proof.
  induction l as [| k l IH]; simpl; [constructor | now apply insert_key_sorted].
Qed.

Lemma insert_key_perm (k : string * string * Z) (l : list (string * string * Z)) :
  Permutation (Aggregator.insert_key k l) (k :: l).
Proof.
  induction l as [| x l IH]; simpl; [reflexivity |].
  destruct (Aggregator.key_leb k x); [reflexivity |].
  rewrite IH. apply perm_swap.
Qed.

Lemma sort_keys_perm (l : list (string * string * Z)) :
  Permutation (Aggregator.sort_keys l) l.
Proof.
  induction l as [| k l IH]; simpl; [reflexivity |].
  rewrite insert_key_perm. now constructor.
Qed.

Lemma unique_NoDup (l : list (string * string * Z)) :
  List.NoDup (Aggregator.unique l).
Proof.
  induction l as [| k l IH]; simpl; constructor.
  - intros H. apply filter_In in H. destruct H as [_ H].
    apply negb_true_iff in H.
    assert (Hk : Aggregator.key_eqb k k = true) by now apply key_eqb_eq.
    congruence.
  - now apply List.NoDup_filter.
Qed.

Section TableFacts.

Import Metrics.
Context {T L V : Type}.

Local Abbreviation record := (prediction_record T L (list (string * list V))).

Lemma sorted_unique_keys (keys : list (string * string * Z)) :
  let merged := Aggregator.sort_keys (Aggregator.unique keys) in
  List.NoDup merged /\
  Sorted (fun a b => Aggregator.key_leb a b = true) merged /\
  (forall k, In k merged <-> In k keys).
Proof.
  cbv zeta. repeat split.
  - apply (Permutation_NoDup (Permutation_sym (sort_keys_perm _))). apply unique_NoDup.
  - apply sort_keys_sorted.
  - intros Hin. now apply unique_In, sort_keys_In.
  - intros Hin. now apply sort_keys_In, unique_In.
Qed.

(** X21: the table returned by [mergekfold_results] has one row per
    distinct (Model, Combination, id) key of the input, and its keys are in
    lexicographic order. *)
Theorem merged_table_keys (results table : list record) :
  Aggregator.mergekfold_results results = Ok table ->
  let keys := map Aggregator.key_of table in
  List.NoDup keys /\
  Sorted (fun a b => Aggregator.key_leb a b = true) keys /\
  (forall k, In k keys <-> In k (map Aggregator.key_of results)).
Proof.
  intros H. apply merged_rows in H. destruct H as [Hkeys _]. cbv zeta.
  rewrite Hkeys. apply sorted_unique_keys.
Qed.

(** The number of examples held by a list of records, for one array. *)
Local Abbreviation examples field rows :=
  (list_sum (map (fun r : record => length (field r)) rows)).

Lemma list_sum_map_add {A : Type} (f g : A -> nat) (l : list A) :
  list_sum (map (fun x => f x + g x)%nat l)
  = (list_sum (map f l) + list_sum (map g l))%nat.
Proof. induction l as [| x l IH]; simpl; [reflexivity | rewrite IH; lia]. Qed.

Lemma list_sum_indicator (k0 : string * string * Z) (n : nat)
    (keys : list (string * string * Z)) :
  List.NoDup keys -> In k0 keys ->
  list_sum (map (fun k => if Aggregator.key_eqb k0 k then n else 0%nat) keys) = n.
Proof.
  induction 1 as [| k keys Hnotin Hnd IH]; intros Hin; [contradiction |].
  simpl. destruct (Aggregator.key_eqb k0 k) eqn:E.
  - apply key_eqb_eq in E. subst k.
    assert (Hz : list_sum (map (fun k => if Aggregator.key_eqb k0 k then n else 0%nat) keys)
                 = 0%nat).
    { clear IH Hin Hnd. induction keys as [| k keys IHk]; [reflexivity |].
      simpl. destruct (Aggregator.key_eqb k0 k) eqn:E'.
      - apply key_eqb_eq in E'. subst k. exfalso. apply Hnotin. now left.
      - apply IHk. intros H. apply Hnotin. now right. }
    rewrite Hz. lia.
  - destruct Hin as [-> | Hin]; [| now apply IH].
    assert (Aggregator.key_eqb k0 k0 = true) by now apply key_eqb_eq. congruence.
Qed.

Lemma group_sizes_partition {A : Type} (field : record -> list A)
    (keys : list (string * string * Z)) (results : list record) :
  List.NoDup keys ->
  (forall r, In r results -> In (Aggregator.key_of r) keys) ->
  list_sum (map (fun k =>
                   examples field
                     (List.filter (fun r => Aggregator.key_eqb (Aggregator.key_of r) k)
                                  results))
                keys)
  = examples field results.
Proof.
  intros Hnd. induction results as [| r results IH]; intros Hcov.
  - clear. induction keys as [| k keys IHk]; simpl; auto.
  - rewrite (map_ext _
               (fun k =>
                  (if Aggregator.key_eqb (Aggregator.key_of r) k
                   then length (field r) else 0)
                  + examples field
                      (List.filter (fun r0 => Aggregator.key_eqb (Aggregator.key_of r0) k)
                                   results))%nat).
    + rewrite list_sum_map_add, IH by (intros x Hx; apply Hcov; now right).
      rewrite list_sum_indicator; [reflexivity | exact Hnd | apply Hcov; now left].
    + intros k. cbn [List.filter].
      destruct (Aggregator.key_eqb (Aggregator.key_of r) k); reflexivity.
Qed.

(** X22: [mergekfold_results] neither loses nor duplicates an example: for
    each of [y_pred], [y_true] and [y_true_label], the array lengths of the
    returned table add up to those of the input records. *)
Theorem merged_table_keeps_every_example (results table : list record) :
  Aggregator.mergekfold_results results = Ok table ->
  examples y_pred table = examples y_pred results /\
  examples y_true table = examples y_true results /\
  examples y_true_label table = examples y_true_label results.
Proof.
  intros H. apply merged_rows in H. destruct H as [Hkeys Hrows].
  pose proof (sorted_unique_keys (map Aggregator.key_of results)) as [Hnd [_ Hin]].
  rewrite <- Hkeys in Hnd, Hin.
  assert (Hsum : forall (A : Type) (field : record -> list A),
             Forall (fun row =>
                       length (field row)
                       = examples field
                           (List.filter (fun r => Aggregator.key_eqb (Aggregator.key_of r)
                                                    (Aggregator.key_of row)) results))
                    table ->
             examples field table = examples field results).
  { intros A field Hf.
    rewrite <- (group_sizes_partition field (map Aggregator.key_of table) results Hnd).
    - rewrite map_map. f_equal. apply map_ext_in. intros row Hrow.
      apply (proj1 (List.Forall_forall _ _) Hf row Hrow).
    - intros r Hr. apply Hin. now apply in_map. }
  repeat split; apply Hsum; (eapply List.Forall_impl; [| exact Hrows]);
    cbv zeta; intros row [Hp [Ht Hl]];
    [rewrite Hp at 1 | rewrite Ht at 1 | rewrite Hl at 1];
    now rewrite length_concat, map_map.
Qed.

End TableFacts.

Lemma merged_table_keys_witness :
  let fold0 := Metrics.mkRecord "knn" "spectral" 0%Z [1; 2]%Z [3; 4]%Z [0; 1]%Z None in
  let fold1 := Metrics.mkRecord "knn" "lightcurve" 0%Z [5]%Z [6]%Z [2]%Z None in
  let fold2 := Metrics.mkRecord "knn" "spectral" 0%Z [7; 8; 9]%Z [7; 8; 9]%Z [1; 1; 0]%Z None in
  exists table,
    @Aggregator.mergekfold_results Z Z Z [fold0; fold1; fold2] = Ok table /\
    List.NoDup (map Aggregator.key_of table) /\
    map Aggregator.key_of table = [("knn", "lightcurve", 0%Z); ("knn", "spectral", 0%Z)].
Proof.
  intros fold0 fold1 fold2. eexists. split; [reflexivity |].
  split; [| reflexivity].
  refine (proj1 (@merged_table_keys Z Z Z [fold0; fold1; fold2] _ _)). reflexivity.
Defined.

Lemma merged_table_keeps_every_example_witness :
  let fold0 := Metrics.mkRecord "knn" "spectral" 0%Z [1; 2]%Z [3; 4]%Z [0; 1]%Z None in
  let fold1 := Metrics.mkRecord "knn" "lightcurve" 0%Z [5]%Z [6]%Z [2]%Z None in
  let fold2 := Metrics.mkRecord "knn" "spectral" 0%Z [7; 8; 9]%Z [7; 8; 9]%Z [1; 1; 0]%Z None in
  exists table,
    @Aggregator.mergekfold_results Z Z Z [fold0; fold1; fold2] = Ok table /\
    list_sum (map (fun r => length (Metrics.y_pred r)) table) = 6%nat.
Proof.
  intros fold0 fold1 fold2. eexists. split; [reflexivity |].
  refine (proj1 (@merged_table_keeps_every_example Z Z Z [fold0; fold1; fold2] _ _)).
  reflexivity.
Defined.



Section PayloadFacts.

Import Metrics.
Context {T L V : Type}.

Local Abbreviation record := (prediction_record T L (list (string * list V))).

Lemma concat_lc_data_inv (group : list record) (merged : option (list (string * list V))) :
  Aggregator.concat_lc_data group = Ok merged ->
  Aggregator.payload_merged (Aggregator.dropna (map lc_data group)) merged.
Proof.
  unfold Aggregator.concat_lc_data, Aggregator.payload_merged.
  destruct (Aggregator.dropna (map lc_data group)) as [| first rest].
  - intros H. now injection H as <-.
  - set (payloads := first :: rest).
    destruct (mapM _ first) as [named | e] eqn:Hm; [| discriminate].
    cbn [bind]. intros H. injection H as <-.
    exists first, rest. split; [reflexivity |].
    apply mapM_inv in Hm. clearbody payloads.
    induction Hm as [| [k v] kv entries named Hkv _ [IHk IHf]];
      [split; [reflexivity | constructor] |].
    destruct (mapM (Aggregator.dict_get k) payloads) as [arrays | e] eqn:Ha;
      [| discriminate Hkv].
    cbn [bind] in Hkv.
    destruct (Aggregator.np_concatenate arrays) as [joined | e] eqn:Hj;
      [| discriminate Hkv].
    cbn [bind] in Hkv. injection Hkv as <-.
    apply np_concatenate_inv in Hj. destruct Hj as [_ ->].
    split; [simpl; now rewrite IHk |].
    constructor; [| exact IHf].
    exists arrays. split; [now apply mapM_inv | reflexivity].
Qed.

Lemma merge_group_lc_data (k : string * string * Z) (group : list record) (row : record) :
  Aggregator.merge_group (k, group) = Ok row ->
  Aggregator.concat_lc_data group = Ok (lc_data row).
Proof.
  destruct k as [[model combination] id_]. unfold Aggregator.merge_group.
  destruct (Aggregator.np_concatenate _) as [preds | e]; [| discriminate].
  destruct (Aggregator.np_concatenate _) as [trues | e]; [| discriminate].
  destruct (Aggregator.np_concatenate _) as [labels | e]; [| discriminate].
  destruct (Aggregator.concat_lc_data group) as [lc | e]; [| discriminate].
  cbn [bind]. intros H. now injection H as <-.
Qed.

(** X23: in the table returned by [mergekfold_results], a row has no
    light-curve payload exactly when no record of its group has one;
    otherwise its payload has the names of the group's first payload, each
    with the arrays found under that name in every payload of the group,
    joined in input order. *)
Theorem merged_payload_follows_group (results table : list record) :
  Aggregator.mergekfold_results results = Ok table ->
  Forall (fun row =>
            let group :=
              List.filter (fun r => Aggregator.key_eqb (Aggregator.key_of r)
                                      (Aggregator.key_of row))
                          results in
            Aggregator.payload_merged (Aggregator.dropna (map lc_data group))
              (lc_data row))
         table.
Proof.
  unfold Aggregator.mergekfold_results.
  destruct results as [| r0 results'] eqn:E; [discriminate |]. rewrite <- E. clear E.
  intros H. apply mapM_inv in H. unfold Aggregator.groupby in H.
  induction (Aggregator.sort_keys (Aggregator.unique (map Aggregator.key_of results)))
    as [| k ks IH] in table, H |- *.
  - inversion H. constructor.
  - inversion H as [| g row gs rows Hrow Hrest]; subst.
    constructor; [| now apply IH].
    pose proof (merge_group_inv _ _ _ Hrow) as [_ [Hk _]].
    apply merge_group_lc_data in Hrow. apply concat_lc_data_inv in Hrow.
    cbv zeta. rewrite Hk. exact Hrow.
Qed.

End PayloadFacts.

Lemma merged_payload_follows_group_witness :
  let fold0 :=
    Metrics.mkRecord "knn" "spectral" 0%Z [1; 2]%Z [3; 4]%Z [0; 1]%Z
      (Some [("x_lc", [10; 11]%Z); ("t_lc", [20; 21]%Z)]) in
  let fold1 :=
    Metrics.mkRecord "knn" "spectral" 0%Z [5]%Z [6]%Z [2]%Z
      (Some [("t_lc", [22]%Z); ("x_lc", [12]%Z)]) in
  exists row,
    @Aggregator.mergekfold_results Z Z Z [fold0; fold1] = Ok [row] /\
    Metrics.lc_data row = Some [("x_lc", [10; 11; 12]%Z); ("t_lc", [20; 21; 22]%Z)] /\
    Aggregator.payload_merged
      [[("x_lc", [10; 11]%Z); ("t_lc", [20; 21]%Z)];
       [("t_lc", [22]%Z); ("x_lc", [12]%Z)]]
      (Metrics.lc_data row).
Proof.
  intros fold0 fold1. eexists. split; [reflexivity |]. split; [reflexivity |].
  assert (Heq : @Aggregator.mergekfold_results Z Z Z [fold0; fold1]
                = Ok [Metrics.mkRecord "knn" "spectral" 0%Z [1; 2; 5]%Z [3; 4; 6]%Z
                        [0; 1; 2]%Z
                        (Some [("x_lc", [10; 11; 12]%Z); ("t_lc", [20; 21; 22]%Z)])])
    by reflexivity.
  pose proof (merged_payload_follows_group _ _ Heq) as H.
  inversion H as [| ? ? Hrow _]; subst. exact Hrow.
Defined.



(** ** [filter_classes]: arbitrary target classes *)

Lemma map_combine_map_l {A B C D : Type} (F : A * B -> C) (G : C * B -> D)
    (a : list A) (b : list B) :
  map G (combine (map F (combine a b)) b) = map (fun p => G (F p, snd p)) (combine a b).
Proof.
  revert b. induction a as [| x a IH]; intros [| y b]; simpl; try reflexivity.
  now rewrite IH.
Qed.

Lemma fold_masked_assign (pairs : list (nat * Z)) (garbage filtered : list Z) :
  length garbage = length filtered ->
  fold_left (fun remapped '(i, class_val) =>
               FilterClasses.masked_assign remapped filtered class_val i)
            pairs garbage
  = map (fun '(g, f) =>
           fold_left (fun r '(i, class_val) =>
                        if Z.eqb f class_val then Z.of_nat i else r) pairs g)
        (combine garbage filtered).
Proof.
  revert garbage. induction pairs as [| [i c] pairs IH]; intros garbage Hlen.
  - simpl. rewrite <- (map_fst_combine garbage filtered Hlen) at 1.
    apply map_ext. now intros [g f].
  - cbn [fold_left]. rewrite IH.
    + unfold FilterClasses.masked_assign. rewrite map_combine_map_l.
      apply map_ext. now intros [g f].
    + unfold FilterClasses.masked_assign. rewrite length_map, length_combine. lia.
Qed.

Lemma remap_one (f : Z) (l : list Z) (a : nat) (g : Z) :
  let r := fold_left (fun r '(i, class_val) =>
                        if Z.eqb f class_val then Z.of_nat i else r)
                     (combine (seq a (length l)) l) g in
  (r = g /\ ~ In f l) \/
  (exists i, (a <= i < a + length l)%nat /\ nth_error l (i - a) = Some f /\
             r = Z.of_nat i).
Proof.
  revert a g. induction l as [| c l IH]; intros a g; [left; split; [reflexivity | tauto] |].
  cbn [length seq combine fold_left].
  destruct (IH (S a) (if Z.eqb f c then Z.of_nat a else g)) as [[Hr Hnot] | [i [Hi [Hn Hr]]]].
  - destruct (Z.eqb f c) eqn:E.
    + right. exists a. apply Z.eqb_eq in E. subst c. rewrite Nat.sub_diag.
      split; [simpl; lia | split; [reflexivity | exact Hr]].
    + left. split; [exact Hr |]. intros [-> | Hin]; [| contradiction].
      now rewrite Z.eqb_refl in E.
  - right. exists i. split; [simpl; lia | split; [| exact Hr]].
    replace (i - a)%nat with (S (i - S a)) by lia. exact Hn.
Qed.

Section GeneralFilterFacts.

Context {Row V : Type}.
Variable empty_like : list Z -> list Z.
Hypothesis empty_like_length : forall t, length (empty_like t) = length t.

(** X24: for any target classes, [filter_classes] keeps, in every feature
    matrix and auxiliary array, exactly the rows whose label is a target
    class, and each remapped label is a valid position in [target_classes]
    holding the original label: no uninitialised value is returned. *)
Theorem filter_classes_keeps_and_renumbers
    (X_list : list (list Row)) (y : list Z)
    (lc_data : option (list (string * list V))) (target_classes : list Z) :
  Forall (fun X => length X = length y) X_list ->
  (forall d, lc_data = Some d -> Forall (fun kv => length (snd kv) = length y) d) ->
  let mask := map (fun v => existsb (Z.eqb v) target_classes) y in
  exists remapped_y,
    FilterClasses.filter_classes empty_like X_list y lc_data target_classes
    = Ok (map (fun X => map snd (List.filter fst (combine mask X))) X_list,
          remapped_y,
          option_map (map (fun '(k, value) =>
                             (k, map snd (List.filter fst (combine mask value)))))
                     lc_data) /\
    Forall2 (fun original new =>
               (0 <= new < Z.of_nat (length target_classes))%Z /\
               nth_error target_classes (Z.to_nat new) = Some original)
            (List.filter (fun v => existsb (Z.eqb v) target_classes) y)
            remapped_y.
Proof.
  intros HX Hlc mask. unfold FilterClasses.filter_classes. fold mask.
  assert (Hmlen : length mask = length y) by apply length_map.
  rewrite (mapM_ok _ (fun X => map snd (List.filter fst (combine mask X)))).
  2:{ intros X HIn. apply mask_select_same_length. rewrite Hmlen. symmetry.
      now apply (proj1 (List.Forall_forall _ _) HX). }
  cbn [bind].
  assert (Hd : (match lc_data with
                | Some d =>
                    do d' <- mapM (fun '(k, value) =>
                               do v <- Metrics.mask_select mask value; Ok (k, v)) d;
                    Ok (Some d')
                | None => Ok None
                end)
               = Ok (option_map (map (fun '(k, value) =>
                                        (k, map snd (List.filter fst (combine mask value)))))
                                lc_data)).
  { destruct lc_data as [d |]; [| reflexivity].
    rewrite (mapM_ok _ (fun '(k, value) =>
                          (k, map snd (List.filter fst (combine mask value)))));
      [reflexivity |].
    intros [k value] HIn. rewrite mask_select_same_length; [reflexivity |].
    rewrite Hmlen. symmetry.
    apply (proj1 (List.Forall_forall _ _) (Hlc d eq_refl) (k, value) HIn). }
  rewrite Hd. cbn [bind].
  rewrite mask_select_same_length by exact Hmlen. cbn [bind].
  eexists. split; [reflexivity |].
  unfold mask. rewrite select_by_predicate.
  set (filtered := List.filter (fun v => existsb (Z.eqb v) target_classes) y).
  rewrite fold_masked_assign by apply empty_like_length.
  assert (Hin : Forall (fun f => In f target_classes) filtered).
  { apply List.Forall_forall. intros f Hf. apply filter_In in Hf. destruct Hf as [_ Hf].
    apply existsb_exists in Hf. destruct Hf as [c [Hc Hfc]].
    apply Z.eqb_eq in Hfc. now subst c. }
  generalize (empty_like filtered), (empty_like_length filtered).
  clearbody filtered. clear -Hin. intros garbage Hlen. revert garbage Hlen.
  induction Hin as [| f filtered Hf _ IH]; intros [| g garbage] Hlen; simpl in Hlen;
    try discriminate; [constructor |].
  cbn [combine map]. constructor; [| apply IH; lia].
  destruct (remap_one f target_classes 0 g) as [[_ Hnot] | [i [Hi [Hn ->]]]];
    [contradiction |].
  rewrite Nat.sub_0_r in Hn. rewrite Nat2Z.id. split; [lia | exact Hn].
Qed.

(** X25: [filter_classes] raises an [IndexError] when a feature matrix does
    not have one row per label. *)
Theorem filter_classes_misaligned_features
    (X_list : list (list Row)) (y : list Z)
    (lc_data : option (list (string * list V))) (target_classes : list Z) :
  Exists (fun X => length X <> length y) X_list ->
  FilterClasses.filter_classes empty_like X_list y lc_data target_classes
  = Raise IndexError.
Proof.
  intros Hex. unfold FilterClasses.filter_classes.
  rewrite (mapM_raise _ IndexError); [reflexivity | |].
  - intros X _. apply mask_select_cases.
  - eapply List.Exists_impl; [| exact Hex]. intros X HX.
    apply mask_select_mismatch. now rewrite length_map.
Qed.

End GeneralFilterFacts.

Lemma filter_classes_keeps_and_renumbers_witness :
  exists remapped_y,
    @FilterClasses.filter_classes Z Z (map (fun _ => 7%Z))
      [[10; 11; 12; 13]%Z] [5; 0; 3; 5]%Z None [5; 3]%Z
    = Ok ([[10; 12; 13]%Z], remapped_y, None) /\
    Forall2 (fun original new =>
               (0 <= new < 2)%Z /\ nth_error [5; 3]%Z (Z.to_nat new) = Some original)
            [5; 3; 5]%Z remapped_y.
Proof.
  apply (@filter_classes_keeps_and_renumbers Z Z (map (fun _ => 7%Z))
           (fun t => length_map (fun _ => 7%Z) t)
           [[10; 11; 12; 13]%Z] [5; 0; 3; 5]%Z None [5; 3]%Z).
  - repeat constructor.
  - intros d Hd. discriminate Hd.
Defined.

Lemma filter_classes_misaligned_features_witness :
  @FilterClasses.filter_classes Z Z (map (fun _ => 7%Z))
    [[10; 11; 12]%Z] [5; 0; 3; 5]%Z None [5; 3]%Z
  = Raise IndexError.
Proof.
  apply filter_classes_misaligned_features. left. simpl. lia.
Defined.



(** ** Embedding Extractor *)

Lemma combs_NoDup (combinations : list string) :
  List.NoDup (List.filter (Embeddings.contains combinations) Embeddings.combs_all).
Proof.
  apply List.NoDup_filter. unfold Embeddings.combs_all.
  repeat constructor; simpl; intuition discriminate.
Qed.

Lemma contains_In (combinations : list string) (name : string) :
  Embeddings.contains combinations name = true <-> In name combinations.
Proof.
  unfold Embeddings.contains. rewrite existsb_exists. split.
  - intros [x [Hx E]]. apply String.eqb_eq in E. now subst x.
  - intros H. exists name. split; [exact H | apply String.eqb_refl].
Qed.

Lemma combs_length_le (combinations : list string) :
  (length (List.filter (Embeddings.contains combinations) Embeddings.combs_all)
   <= length combinations)%nat.
Proof.
  apply NoDup_incl_length; [apply combs_NoDup |].
  intros name H. apply filter_In in H. now apply contains_In.
Qed.

Lemma combs_length_eq (combinations : list string) :
  length (List.filter (Embeddings.contains combinations) Embeddings.combs_all)
  = length combinations
  <-> List.NoDup combinations /\ incl combinations Embeddings.combs_all.
Proof.
  set (combs := List.filter (Embeddings.contains combinations) Embeddings.combs_all).
  assert (Hincl : incl combs combinations).
  { intros name H. apply filter_In in H. now apply contains_In. }
  split.
  - intros Hlen. split.
    + apply (NoDup_incl_NoDup (combs_NoDup combinations)); [fold combs; lia | exact Hincl].
    + assert (H : incl combinations combs).
      { apply NoDup_length_incl; [apply combs_NoDup | fold combs; lia | exact Hincl]. }
      intros name Hn. apply H in Hn. now apply filter_In in Hn.
  - intros [Hnd Hsub]. apply Nat.le_antisymm; [apply combs_length_le |].
    apply NoDup_incl_length; [exact Hnd |].
    intros name Hn. apply filter_In. split; [now apply Hsub | now apply contains_In].
Qed.

Section ExtractorFacts.

Context {batch row : Type}.
Variable image_embeddings_with_projection : batch -> list row.
Variable lightcurve_embeddings_with_projection : batch -> list row.
Variable spectral_embeddings_with_projection : batch -> list row.
Variable meta_embedding : batch -> list row.

Local Abbreviation encoder_of :=
  (Embeddings.encoder_of image_embeddings_with_projection
     lightcurve_embeddings_with_projection spectral_embeddings_with_projection
     meta_embedding).
Local Abbreviation embed :=
  (Embeddings.embed image_embeddings_with_projection
     lightcurve_embeddings_with_projection spectral_embeddings_with_projection
     meta_embedding).
Local Abbreviation get_embs :=
  (Embeddings.get_embs image_embeddings_with_projection
     lightcurve_embeddings_with_projection spectral_embeddings_with_projection
     meta_embedding).

Lemma embed_canonical (combinations : list string) (b : batch) :
  embed combinations b
  = map (fun name => encoder_of name b)
        (List.filter (Embeddings.contains combinations) Embeddings.combs_all).
Proof.
  unfold Embeddings.embed, Embeddings.combs_all. cbn [List.filter].
  destruct (Embeddings.contains combinations "host_galaxy"),
    (Embeddings.contains combinations "lightcurve"),
    (Embeddings.contains combinations "spectral"),
    (Embeddings.contains combinations "meta"); reflexivity.
Qed.

Lemma append_each_slots (names : list string) (acc : string -> list (list row))
    (extra : list (list (list row))) (b : batch) :
  Embeddings.append_each (map acc names ++ extra)%list
    (map (fun name => encoder_of name b) names)
  = Ok (map (fun name => acc name ++ [encoder_of name b])%list names ++ extra)%list.
Proof.
  induction names as [| name names IH]; simpl; [reflexivity |].
  now rewrite IH.
Qed.

Lemma accumulate_slots (dataloader : list batch) (combinations : list string)
    (names : list string) (acc : string -> list (list row))
    (extra : list (list (list row))) :
  names = List.filter (Embeddings.contains combinations) Embeddings.combs_all ->
  Embeddings.foldM (fun slots b => Embeddings.append_each slots (embed combinations b))
    dataloader (map acc names ++ extra)%list
  = Ok (map (fun name => acc name ++ map (encoder_of name) dataloader)%list names
        ++ extra)%list.
Proof.
  intros Hnames. revert acc.
  induction dataloader as [| b dataloader IH]; intros acc; simpl.
  - f_equal. f_equal. apply map_ext. intros name. now rewrite app_nil_r.
  - rewrite embed_canonical, <- Hnames, append_each_slots. cbn [bind].
    rewrite (IH (fun name => acc name ++ [encoder_of name b])%list).
    f_equal. f_equal. apply map_ext. intros name. now rewrite <- app_assoc.
Qed.

Lemma empty_slots (combinations : list string) :
  let names := List.filter (Embeddings.contains combinations) Embeddings.combs_all in
  map (fun _ : string => @nil (list row)) combinations
  = (map (fun _ : string => @nil (list row)) names
     ++ repeat [] (length combinations - length names))%list.
Proof.
  intros names. assert (Hle := combs_length_le combinations). fold names in Hle.
  replace (map (fun _ : string => @nil (list row)) combinations)
    with (repeat (@nil (list row)) (length combinations)).
  - replace (map (fun _ : string => @nil (list row)) names)
      with (repeat (@nil (list row)) (length names)).
    + rewrite <- repeat_app. f_equal. lia.
    + clear. induction names; simpl; congruence.
  - clear. induction combinations; simpl; congruence.
Qed.

(** X26: for a non-empty data loader and distinct known modality names,
    [get_embs] returns one tensor per requested modality, in the canonical
    order host_galaxy, lightcurve, spectral, meta (not the order of the
    request), each the concatenation over the batches of that modality's
    embeddings. *)
Theorem get_embs_canonical_order (dataloader : list batch) (combinations : list string)
    (ret_combs : bool) :
  dataloader <> [] ->
  List.NoDup combinations -> incl combinations Embeddings.combs_all ->
  let combs := List.filter (Embeddings.contains combinations) Embeddings.combs_all in
  get_embs dataloader combinations ret_combs
  = Ok (map (fun name => concat (map (encoder_of name) dataloader)) combs,
        if ret_combs then Some combs else None)
  /\ length combs = length combinations.
Proof.
  intros Hdl Hnd Hsub combs.
  assert (Hlen : length combs = length combinations)
    by (apply combs_length_eq; now split).
  split; [| exact Hlen].
  unfold Embeddings.get_embs. fold combs.
  rewrite (empty_slots combinations). fold combs.
  rewrite Hlen, Nat.sub_diag. cbn [repeat].
  rewrite (accumulate_slots dataloader combinations combs (fun _ => []) []) by reflexivity.
  cbn [bind]. rewrite !app_nil_r.
  rewrite (mapM_ok _ (fun tensors => concat tensors)).
  - cbn [bind]. now rewrite map_map.
  - intros tensors Hin. apply in_map_iff in Hin. destruct Hin as [name [<- _]].
    cbn [app]. destruct dataloader; [contradiction | reflexivity].
Qed.

(** X27: [get_embs] raises a [RuntimeError] when the data loader is empty
    (and a modality is requested), when a modality is requested twice, or
    when an unknown modality name is requested: a slot stays empty and
    cannot be concatenated. *)
Theorem get_embs_empty_slot_raises (dataloader : list batch) (combinations : list string)
    (ret_combs : bool) :
  (dataloader = [] /\ combinations <> []) \/
  ~ List.NoDup combinations \/
  ~ incl combinations Embeddings.combs_all ->
  get_embs dataloader combinations ret_combs = Raise RuntimeError.
Proof.
  intros Hbad. unfold Embeddings.get_embs.
  set (combs := List.filter (Embeddings.contains combinations) Embeddings.combs_all).
  rewrite (empty_slots combinations). fold combs.
  rewrite (accumulate_slots dataloader combinations combs (fun _ => [])
             (repeat [] (length combinations - length combs))) by reflexivity.
  cbn [bind app].
  rewrite (mapM_raise _ RuntimeError); [reflexivity | |].
  - intros tensors _. destruct tensors; simpl; eauto.
  - apply List.Exists_exists.
    destruct Hbad as [[-> Hne] | Hbad].
    + destruct combinations as [| c combinations]; [contradiction |].
      exists []. split; [| reflexivity].
      apply in_or_app.
      destruct combs as [| name combs'] eqn:E.
      * right. simpl. now left.
      * left. simpl. now left.
    + assert (Hlt : (length combs < length combinations)%nat).
      { assert (Hle := combs_length_le combinations). fold combs in Hle.
        destruct (Nat.eq_dec (length combs) (length combinations)) as [Heq | Hneq];
          [| lia].
        apply combs_length_eq in Heq. tauto. }
      exists []. split; [| reflexivity].
      apply in_or_app. right.
      destruct (length combinations - length combs)%nat eqn:E; [lia |].
      simpl. now left.
Qed.

End ExtractorFacts.

Lemma get_embs_canonical_order_witness :
  @Embeddings.get_embs Z Z (fun b => [b]) (fun b => [b + 10]%Z) (fun b => [b + 20]%Z)
    (fun b => [b + 30]%Z) [1; 2]%Z ["spectral"; "host_galaxy"] true
  = Ok ([[1; 2]%Z; [21; 22]%Z], Some ["host_galaxy"; "spectral"]).
Proof.
  refine (proj1 (@get_embs_canonical_order Z Z (fun b => [b]) (fun b => [b + 10]%Z)
                   (fun b => [b + 20]%Z) (fun b => [b + 30]%Z)
                   [1; 2]%Z ["spectral"; "host_galaxy"] true _ _ _)).
  - discriminate.
  - repeat constructor; simpl; intuition discriminate.
  - intros name [<- | [<- | []]]; simpl; tauto.
Defined.

Lemma get_embs_empty_slot_raises_witness :
  @Embeddings.get_embs Z Z (fun b => [b]) (fun b => [b + 10]%Z) (fun b => [b + 20]%Z)
    (fun b => [b + 30]%Z) [1; 2]%Z ["spectral"; "images"] false
  = Raise RuntimeError.
Proof.
  apply get_embs_empty_slot_raises. right. right. intros H.
  assert (Hin : In "images" Embeddings.combs_all) by (apply H; simpl; tauto).
  simpl in Hin. intuition discriminate.
Defined.



(** ** [assert_sorted_lc] *)

Lemma insert_sorted_length (x : Q) (l : list Q) :
  length (LightCurves.insert_sorted x l) = S (length l).
Proof.
  induction l as [| y l IH]; simpl; [reflexivity |].
  destruct (Qle_bool x y); simpl; [reflexivity | now rewrite IH].
Qed.

Lemma sorted_length (l : list Q) : length (LightCurves.sorted l) = length l.
Proof.
  induction l as [| x l IH]; simpl; [reflexivity |].
  now rewrite insert_sorted_length, IH.
Qed.

Lemma insert_sorted_Sorted (x : Q) (l : list Q) :
  Sorted Qle l -> Sorted Qle (LightCurves.insert_sorted x l).
Proof.
  induction 1 as [| y l Hs IH Hhd]; simpl; [repeat constructor |].
  destruct (Qle_bool x y) eqn:E.
  - apply Qle_bool_iff in E. constructor; [now constructor | now constructor].
  - assert (Hyx : (y <= x)%Q).
    { apply Qlt_le_weak, Qnot_le_lt. intros H. apply Qle_bool_iff in H. congruence. }
    constructor; [exact IH |].
    destruct l as [| z l]; simpl; [now constructor |].
    inversion Hhd; subst. destruct (Qle_bool x z); now constructor.
Qed.

Lemma sorted_Sorted (l : list Q) : Sorted Qle (LightCurves.sorted l).
Proof.
  induction l as [| x l IH]; simpl; [constructor | now apply insert_sorted_Sorted].
Qed.

Lemma all_equal_Sorted (a b : list Q) :
  length a = length b -> LightCurves.all_equal a b = true ->
  Sorted Qle a -> Sorted Qle b.
Proof.
  revert b. induction a as [| x a IH]; intros [| y b] Hlen Heq Hs;
    simpl in Hlen; try discriminate; [constructor |].
  unfold LightCurves.all_equal in *. simpl in Heq.
  apply andb_true_iff in Heq. destruct Heq as [Hxy Heq].
  apply Qeq_bool_iff in Hxy.
  inversion Hs as [| ? ? Hs' Hhd]; subst.
  constructor; [apply IH; [lia | exact Heq | exact Hs'] |].
  destruct a as [| x' a]; destruct b as [| y' b]; simpl in Hlen; try discriminate;
    [constructor |].
  simpl in Heq. apply andb_true_iff in Heq. destruct Heq as [Hxy' _].
  apply Qeq_bool_iff in Hxy'. inversion Hhd; subst. constructor.
  now rewrite <- Hxy, <- Hxy'.
Qed.

Lemma all_equal_refl (l : list Q) : LightCurves.all_equal l l = true.
Proof.
  unfold LightCurves.all_equal. induction l as [| x l IH]; simpl; [reflexivity |].
  rewrite IH, andb_true_r. apply Qeq_bool_iff. reflexivity.
Qed.

Lemma sorted_fixed (l : list Q) : Sorted Qle l -> LightCurves.sorted l = l.
Proof.
  induction 1 as [| x l Hs IH Hhd]; simpl; [reflexivity |].
  rewrite IH. destruct Hhd as [| y l' Hxy]; simpl; [reflexivity |].
  apply Qle_bool_iff in Hxy. now rewrite Hxy.
Qed.

(** Python's check [(sorted(test) == test).all()] holds exactly for
    non-decreasing sequences. *)
Lemma sorted_check_iff (l : list Q) :
  LightCurves.all_equal (LightCurves.sorted l) l = true <-> Sorted Qle l.
Proof.
  split.
  - intros H. apply (all_equal_Sorted (LightCurves.sorted l));
      [apply sorted_length | exact H | apply sorted_Sorted].
  - intros H. rewrite (sorted_fixed l H). apply all_equal_refl.
Qed.

Lemma fold_and (f : nat -> bool) (ks : list nat) (c : bool) :
  fold_left (fun c k => c && f k) ks c = c && forallb f ks.
Proof.
  revert c. induction ks as [| k ks IH]; intros c; simpl; [now rewrite andb_true_r |].
  rewrite IH. now rewrite andb_assoc.
Qed.

(** Whether every band of a row passes the check. *)
Local Abbreviation row_ok nbands times :=
  (forallb (fun k => LightCurves.all_equal
                       (LightCurves.sorted (LightCurves.band nbands times k))
                       (LightCurves.band nbands times k))
           (seq 0 nbands)).

Lemma check_rows_spec (nbands : nat) (time_test : list (list Q)) (n a : nat)
    (check : bool) :
  (a + n <= length time_test)%nat ->
  LightCurves.check_rows nbands time_test (seq a n) check
  = Some (check && forallb (fun times => row_ok nbands times)
                           (firstn n (skipn a time_test))).
Proof.
  revert a check. induction n as [| n IH]; intros a check Hlen; simpl.
  - now rewrite andb_true_r.
  - destruct (nth_error time_test a) as [times |] eqn:Hn.
    + rewrite fold_and, IH by lia.
      assert (Hskip : skipn a time_test = times :: skipn (S a) time_test).
      { clear -Hn. revert a Hn. induction time_test as [| t time_test IHt];
          intros [| a] Hn; simpl in *; try discriminate.
        - now injection Hn as ->.
        - now apply IHt. }
      rewrite Hskip. simpl. now rewrite andb_assoc.
    + apply nth_error_None in Hn. lia.
Qed.

(** X28: on batches with a time row for every magnitude row,
    [assert_sorted_lc] returns without failing exactly when, in every
    checked row and every band, the non-zero times of the band's slice are
    non-decreasing; otherwise the assertion fails (no index error). *)
Theorem assert_sorted_lc_passes_iff {M B : Type}
    (loader : list (list M * list (list Q))) (bands : list B) :
  Forall (fun '(mag_test, time_test) => (length mag_test <= length time_test)%nat) loader ->
  (LightCurves.assert_sorted_lc loader bands = LightCurves.Returned <->
   Forall (fun '(mag_test, time_test) =>
             Forall (fun times =>
                       forall k, (k < length bands)%nat ->
                                 Sorted Qle (LightCurves.band (length bands) times k))
                    (firstn (length mag_test) time_test))
          loader)
  /\
  LightCurves.assert_sorted_lc loader bands <> LightCurves.IndexFailed.
Proof.
  assert (Hrow : forall times,
             row_ok (length bands) times = true <->
             forall k, (k < length bands)%nat ->
                       Sorted Qle (LightCurves.band (length bands) times k)).
  { intros times. rewrite forallb_forall. split.
    - intros H k Hk. apply sorted_check_iff, H, in_seq. lia.
    - intros H k Hk. apply sorted_check_iff, H. apply in_seq in Hk. lia. }
  induction 1 as [| [mag_test time_test] loader Hlen _ [IHiff IHne]];
    cbn [LightCurves.assert_sorted_lc].
  - split; [split; [constructor | reflexivity] | discriminate].
  - rewrite check_rows_spec by (simpl; exact Hlen). rewrite skipn_O. cbn [andb].
    destruct (forallb (fun times => row_ok (length bands) times)
                      (firstn (length mag_test) time_test)) eqn:E.
    + split; [| exact IHne]. rewrite IHiff. split.
      * intros H. constructor; [| exact H].
        apply List.Forall_forall. intros times Hin. apply Hrow.
        rewrite forallb_forall in E. now apply E.
      * intros H. now inversion H.
    + split; [| discriminate]. split; [discriminate |].
      intros H. inversion H as [| ? ? Hfirst _]; subst. exfalso.
      assert (Ht : forallb (fun times => row_ok (length bands) times)
                           (firstn (length mag_test) time_test) = true).
      { apply forallb_forall. intros times Hin. apply Hrow.
        now apply (proj1 (List.Forall_forall _ _) Hfirst). }
      congruence.
Qed.

Lemma assert_sorted_lc_passes_iff_witness :
  LightCurves.assert_sorted_lc
    [([tt; tt], [[1; 2; 0; 4; 5; 0]%Q; [0; 3; 3; 1; 2; 0]%Q])] [tt; tt]
  = LightCurves.Returned.
Proof.
  apply (assert_sorted_lc_passes_iff
           [([tt; tt], [[1; 2; 0; 4; 5; 0]%Q; [0; 3; 3; 1; 2; 0]%Q])] [tt; tt]).
  - repeat constructor.
  - assert (Hband : forall times,
               LightCurves.all_equal
                 (LightCurves.sorted (LightCurves.band 2 times 0))
                 (LightCurves.band 2 times 0) = true ->
               LightCurves.all_equal
                 (LightCurves.sorted (LightCurves.band 2 times 1))
                 (LightCurves.band 2 times 1) = true ->
               forall k, (k < 2)%nat -> Sorted Qle (LightCurves.band 2 times k)).
    { intros times H0 H1 k Hk. apply sorted_check_iff.
      destruct k as [| [| k]]; [exact H0 | exact H1 | lia]. }
    constructor; [| constructor].
    constructor; [apply Hband; reflexivity |].
    constructor; [apply Hband; reflexivity | constructor].
Defined.
